(** * Latent-extraction pipeline of [activation_collector.py]

    A shallow embedding of the activation collector: the sequence batcher of
    [main], the layer-wise extractor and the reassembler of
    [get_latents_for_batch], and the per-target archiving loop of [main].

    Tensors are nested lists of scalars; the scalar type (a float in the
    program) is a parameter together with its arithmetic.  The encoder, the
    transcoder and the dataset sampler are collaborators of the program: they
    appear as record fields and are constrained only by the shape contracts
    the program relies on. *)

From Stdlib Require Import String Ascii List Arith Bool Lia PeanoNat ZArith.
From Stdlib Require Import DecimalString DecimalNat Permutation.
Import ListNotations.

Set Implicit Arguments.
Set Warnings "-notation-for-abbreviation".

(** ** Exceptions *)

Inductive error : Type :=
| IndexError
| RuntimeError
| ValueError
| OverflowError.

Inductive result (A : Type) : Type :=
| Ok (a : A)
| Err (e : error).

Arguments Ok {A} a.
Arguments Err {A} e.

Definition rbind {A B} (r : result A) (f : A -> result B) : result B :=
  match r with
  | Ok a => f a
  | Err e => Err e
  end.

Notation "x <- c ;; k" := (rbind c (fun x => k))
  (at level 61, c at next level, right associativity).

(** [for x in xs: ys.append(f x)], stopping at the first exception. *)
Fixpoint mapM {A B} (f : A -> result B) (xs : list A) : result (list B) :=
  match xs with
  | [] => Ok []
  | x :: xs' => y <- f x ;; ys <- mapM f xs' ;; Ok (y :: ys)
  end.

(** ** Python sequences *)

(** [l[i]] for a non-negative index: out of range raises. *)
Definition index {A} (l : list A) (i : nat) : result A :=
  match nth_error l i with
  | Some a => Ok a
  | None => Err IndexError
  end.

(** [l[a:b]] for non-negative bounds: both ends are clamped to the length. *)
Definition slice {A} (a b : nat) (l : list A) : list A :=
  firstn (b - a) (skipn a l).

Fixpoint range_from (fuel start stop step : nat) : list nat :=
  match fuel with
  | 0 => []
  | S fuel' =>
      if start <? stop
      then start :: range_from fuel' (start + step) stop step
      else []
  end.

(** [range(start, stop, step)] for a non-negative step; a zero step raises.
    With a positive step at most [stop] indices are produced. *)
Definition py_range (start stop step : nat) : result (list nat) :=
  if step =? 0 then Err ValueError
  else Ok (range_from stop start stop step).

(** ** Sequence batcher

    [for i in range(0, len(seqs), batch_size): batch = seqs[i : i + batch_size]] *)
Definition batches {A} (batch_size : nat) (seqs : list A)
  : result (list (list A)) :=
  idxs <- py_range 0 (length seqs) batch_size ;;
  Ok (map (fun i => slice i (i + batch_size) seqs) idxs).

Definition ceil_div (n b : nat) : nat := (n + b - 1) / b.


(** ** Tensors

    A tensor is a nested list; a scalar is a float in the program, here any
    type with the operations the pipeline uses. *)

Class Scalar (F : Type) : Type := {
  fzero : F;
  fadd : F -> F -> F;
  fsub : F -> F -> F;
  fmul : F -> F -> F;
  (** [v == 0] *)
  fis_zero : F -> bool;
  (** [|a| <= |b|] *)
  fmag_leb : F -> F -> bool
}.

Notation vec F := (list F) (only parsing).
Notation mat F := (list (list F)) (only parsing).
Notation tensor3 F := (list (list (list F))) (only parsing).

(** Token ids, shape (B, T), and the boolean mask derived from them. *)
Notation tokens := (list (list nat)) (only parsing).
Notation mask := (list (list bool)) (only parsing).

(** A tensor of shape (a, b, c). *)
Definition shape2 {A} (a b : nat) (x : list (list A)) : Prop :=
  length x = a /\ Forall (fun r => length r = b) x.

Definition shape3 {A} (a b c : nat) (x : list (list (list A))) : Prop :=
  length x = a /\ Forall (shape2 b c) x.

(** [x.shape[1]] and [x.shape[2]] of a non-empty nested list. *)
Definition dim1 {A} (x : list (list A)) : nat :=
  match x with
  | [] => 0
  | m :: _ => length m
  end.

Definition dim2 {A} (x : list (list (list A))) : nat :=
  match x with
  | [] => 0
  | m :: _ => dim1 m
  end.

Definition shape_of {A} (x : list (list (list A))) : nat * nat * nat :=
  (length x, dim1 x, dim2 x).

(** [x.transpose(0, 1)] of a rectangular tensor with a non-empty first axis. *)
Definition transpose01 {F} (x : tensor3 F) : tensor3 F :=
  map (fun j => map (fun r => nth j r []) x) (seq 0 (dim1 x)).

(** [s * x] for a scalar [s]. *)
Definition scale {F} `{Scalar F} (s : F) (x : tensor3 F) : tensor3 F :=
  map (map (map (fmul s))) x.

Definition zip_with {A} (op : A -> A -> A) (u v : list A) : list A :=
  map (fun p => op (fst p) (snd p)) (combine u v).

(** [x op b] for [x] of shape (B, T, n) and [b] of shape (n,): [b] is
    broadcast over the two leading axes; a last axis of another size raises. *)
Definition broadcast_last {F} (op : F -> F -> F) (x : tensor3 F) (b : vec F)
  : result (tensor3 F) :=
  if forallb (forallb (fun r => length r =? length b)) x
  then Ok (map (map (fun r => zip_with op r b)) x)
  else Err RuntimeError.

(** [torch.stack(ts, dim=0)]: the list must be non-empty and its elements of
    one shape. *)
Definition stack {F} (ts : list (mat F)) : result (tensor3 F) :=
  match ts with
  | [] => Err RuntimeError
  | t :: rest =>
      if forallb (fun u => (length u =? length t) && (dim1 u =? dim1 t)) rest
      then Ok ts
      else Err RuntimeError
  end.

(** ** Collaborators

    The encoder ([esm_model]) and the transcoder ([clt]) as the program uses
    them.  A layer takes the hidden state, [self_attn_padding_mask] and
    [need_head_weights]; of its result only the hidden state is kept. *)

Record EsmModel (F : Type) : Type := {
  batch_converter : list (string * string) -> tokens;
  padding_idx : nat;
  embed_scale : F;
  embed_tokens : tokens -> tensor3 F;
  layers : list (tensor3 F -> option mask -> bool -> tensor3 F)
}.

Record CLT (F : Type) : Type := {
  num_layers : nat;
  k : nat;
  LN : tensor3 F -> tensor3 F;
  b_pre : list (vec F);
  encoders : list (tensor3 F -> tensor3 F);
  b_enc : list (vec F);
  topK_activation : tensor3 F -> nat -> tensor3 F
}.

(** ** [get_latents_for_batch] *)

(** [[("protein", seq) for seq in batch_seqs]] *)
Definition protein (batch_seqs : list string) : list (string * string) :=
  map (fun s => ("protein"%string, s)) batch_seqs.

Section GetLatents.
Context {F : Type} `{Scalar F}.
Variable clt : CLT F.
Variable esm_model : EsmModel F.

(** Step 3, [for layer_idx, layer in enumerate(esm_model.layers)]: the
    remaining layers, the index of the first of them and the running hidden
    state [x] of shape (T, B, E).  Returns the tensors appended to
    [layers_data]. *)
Fixpoint layer_loop (n_layers k_value layer_idx : nat)
         (ls : list (tensor3 F -> option mask -> bool -> tensor3 F))
         (x : tensor3 F) : result (list (tensor3 F)) :=
  match ls with
  | [] => Ok []
  | layer :: rest =>
      if n_layers <=? layer_idx then Ok []
      else
        let x := layer x None false in
        let layer_acts := transpose01 x in
        let x_l := LN clt layer_acts in
        b <- index (b_pre clt) layer_idx ;;
        x_l <- broadcast_last fsub x_l b ;;
        enc <- index (encoders clt) layer_idx ;;
        b' <- index (b_enc clt) layer_idx ;;
        pre_acts <- broadcast_last fadd (enc x_l) b' ;;
        let latents := topK_activation clt pre_acts k_value in
        more <- layer_loop n_layers k_value (S layer_idx) rest x ;;
        Ok (latents :: more)
  end.

(** Steps 1 to 3: the list [layers_data], one (B, T, H) tensor per layer. *)
Definition extract_layers (batch_seqs : list string) (k_value : nat)
  : result (list (tensor3 F)) :=
  let n_layers := num_layers clt in
  let data := protein batch_seqs in
  let batch_tokens := batch_converter esm_model data in
  let padding_mask : mask :=
    map (map (fun t => negb (t =? padding_idx esm_model))) batch_tokens in
  let x := scale (embed_scale esm_model)
                 (embed_tokens esm_model batch_tokens) in
  let x := transpose01 x in
  layer_loop n_layers k_value 0 (layers esm_model) x.

(** [layers_data[l_idx][b_idx, start_idx:end_idx, :]] *)
Definition slice_layer (layers_data : list (tensor3 F))
           (b_idx start_idx end_idx l_idx : nat) : result (mat F) :=
  layer <- index layers_data l_idx ;;
  row <- index layer b_idx ;;
  Ok (slice start_idx end_idx row).

(** Step 4, the body of [for b_idx in range(batch_size)]. *)
Definition reassemble_one (layers_data : list (tensor3 F))
           (batch_seqs : list string) (b_idx : nat) : result (tensor3 F) :=
  s <- index batch_seqs b_idx ;;
  let seq_len := String.length s in
  let start_idx := 1 in
  let end_idx := start_idx + seq_len in
  seq_layers <- mapM (slice_layer layers_data b_idx start_idx end_idx)
                     (seq 0 (length layers_data)) ;;
  stack seq_layers.

Definition reassemble (layers_data : list (tensor3 F))
           (batch_seqs : list string) : result (list (tensor3 F)) :=
  let batch_size := length batch_seqs in
  mapM (reassemble_one layers_data batch_seqs) (seq 0 batch_size).

Definition get_latents_for_batch (batch_seqs : list string) (k_value : nat)
  : result (list (tensor3 F)) :=
  layers_data <- extract_layers batch_seqs k_value ;;
  reassemble layers_data batch_seqs.

End GetLatents.

(** ** The dataset

    A data frame with the three columns the program reads.  [InterPro] may be
    null. *)

Record row : Type := {
  Entry : string;
  Sequence : string;
  InterPro : option string
}.

Record DataFrame : Type := {
  columns : list string;
  rows : list row
}.

(** [len(df)] *)
Definition df_len (df : DataFrame) : nat := length (rows df).

(** [df.filter(mask)] *)
Definition df_filter (df : DataFrame) (m : list bool) : DataFrame :=
  {| columns := columns df;
     rows := map fst (filter snd (combine (rows df) m)) |}.

(** [s.str.contains(pat)] for a pattern without metacharacters (the targets
    are plain identifiers): [pat] occurs in [s]. *)
Fixpoint str_contains (s pat : string) : bool :=
  if String.prefix pat s then true
  else match s with
       | EmptyString => false
       | String _ s' => str_contains s' pat
       end.

(** [df["InterPro"].str.contains(target_id).fill_null(False)] *)
Definition has_target (df : DataFrame) (target_id : string) : list bool :=
  map (fun r => match InterPro r with
                | Some s => str_contains s target_id
                | None => false
                end) (rows df).

(** ** Archives and the outside world *)

Record archive (F : Type) : Type := {
  activations : list (tensor3 F);
  entries : list string;
  sequences : list string
}.

Inductive message : Type :=
| MsgLoading (parquet_path : string)
| MsgLoadingModels
| MsgProcessingTarget (target_id : string)
| MsgFoundWith (n : nat) (target_id : string)
| MsgFoundWithout (n : nat) (target_id : string)
| MsgSkipping (target_id : string)
| MsgProcessing (name target_id : string) (n : nat)
| MsgSaved (out_file : string)
| MsgExampleShape (shape : nat * nat * nat).

(** The writes done so far, newest first, and the lines printed so far,
    newest first.  [files] is the log of the writes: writing a name again
    adds an entry and supersedes the earlier ones, so the content of a file
    is its newest entry ([read_file]). *)
Record world (F : Type) : Type := {
  files : list (string * archive F);
  stdout : list message
}.

(** A command runs in a world and leaves a world, also when it raises. *)
Definition M (F A : Type) : Type := world F -> world F * result A.

Definition mret {F A} (a : A) : M F A := fun w => (w, Ok a).

Definition mbind {F A B} (c : M F A) (f : A -> M F B) : M F B :=
  fun w => match c w with
           | (w', Ok a) => f a w'
           | (w', Err e) => (w', Err e)
           end.

Notation "x <~ c ;; k" := (mbind c (fun x => k))
  (at level 61, c at next level, right associativity).
Notation "c ;;; k" := (mbind c (fun _ => k))
  (at level 61, right associativity).

Definition lift {F A} (r : result A) : M F A := fun w => (w, r).

Definition print {F} (m : message) : M F unit :=
  fun w => ({| files := files w; stdout := m :: stdout w |}, Ok tt).

(** [np.savez_compressed(out_file, ...)]: one more write; an existing file
    of that name is overwritten, its earlier entries are superseded. *)
Definition savez {F} (out_file : string) (a : archive F) : M F unit :=
  fun w => ({| files := (out_file, a) :: files w; stdout := stdout w |}, Ok tt).

(** [for x in xs: body(x)] *)
Fixpoint for_each {F A} (body : A -> M F unit) (xs : list A) : M F unit :=
  match xs with
  | [] => mret tt
  | x :: xs' => body x ;;; for_each body xs'
  end.

(** [os.path.join(dir, file)] for a relative [file]. *)
Definition ends_with_slash (d : string) : bool :=
  match String.get (String.length d - 1) d with
  | Some c => Ascii.eqb c "/"%char
  | None => false
  end.

Definition path_join (dir file : string) : string :=
  if (String.length dir =? 0) || ends_with_slash dir
  then (dir ++ file)%string
  else (dir ++ "/" ++ file)%string.

(** ** [main] *)

Definition batch_size : nat := 8.

Definition target_ids : list string :=
  ["IPR000786"%string; "IPR011584"%string].

Section Main.
Context {F : Type} `{Scalar F}.
(** The loaded models: [module.clt] and [esm_model]. *)
Variable clt : CLT F.
Variable esm_model : EsmModel F.
(** [df.sample(n=n, shuffle=shuffle, seed=seed)] *)
Variable sample : DataFrame -> nat -> bool -> nat -> DataFrame.

(** [for i in tqdm(range(0, len(seqs), batch_size))] over the batches cut
    by [batches], extending [all_latents_list]. *)
Fixpoint collect_latents (bs : list (list string))
         (all_latents_list : list (tensor3 F)) : result (list (tensor3 F)) :=
  match bs with
  | [] => Ok all_latents_list
  | batch :: rest =>
      batch_results <- get_latents_for_batch clt esm_model batch (k clt) ;;
      collect_latents rest (all_latents_list ++ batch_results)
  end.

(** The body of [for name, dataframe in [("positives", df_in), ...]]. *)
Definition process_group (output_dir target_id : string)
           (group : string * DataFrame) : M F unit :=
  let (name, dataframe) := group in
  print (MsgProcessing name target_id (df_len dataframe)) ;;;
  let seqs := map Sequence (rows dataframe) in
  let entries := map Entry (rows dataframe) in
  all_latents_list <~ lift (bs <- batches batch_size seqs ;;
                            collect_latents bs []) ;;
  let activations_obj := all_latents_list in
  let out_file :=
    path_join output_dir (name ++ "_" ++ target_id ++ ".npz")%string in
  savez out_file {| activations := activations_obj;
                    entries := entries;
                    sequences := seqs |} ;;;
  print (MsgSaved out_file) ;;;
  match activations_obj with
  | a :: _ => print (MsgExampleShape (shape_of a))
  | [] => mret tt
  end.

(** The body of [for target_id in target_ids]. *)
Definition process_target (df : DataFrame) (output_dir : string)
           (n_samples : nat) (target_id : string) : M F unit :=
  print (MsgProcessingTarget target_id) ;;;
  let has_id := has_target df target_id in
  let group_in := df_filter df has_id in
  let group_out := df_filter df (map negb has_id) in
  print (MsgFoundWith (df_len group_in) target_id) ;;;
  print (MsgFoundWithout (df_len group_out) target_id) ;;;
  if df_len group_in =? 0 then
    print (MsgSkipping target_id)
  else
    let n_in := Nat.min (df_len group_in) n_samples in
    let n_out := Nat.min (df_len group_out) n_samples in
    let df_in := sample group_in n_in true 42 in
    let df_out := sample group_out n_out true 42 in
    for_each (process_group output_dir target_id)
             [("positives"%string, df_in); ("negatives"%string, df_out)].

(** [main], from the data frame read from [parquet_path] on. *)
Definition main_on (targets : list string) (df : DataFrame)
           (parquet_path output_dir : string) (n_samples : nat) : M F unit :=
  print (MsgLoading parquet_path) ;;;
  if negb (existsb (String.eqb "InterPro") (columns df)) then
    lift (Err ValueError)
  else
    print MsgLoadingModels ;;;
    for_each (process_target df output_dir n_samples) targets.

Definition main := main_on target_ids.

End Main.

Definition empty_world {F} : world F := {| files := []; stdout := [] |}.

(** The archive invariant: parallel fields, and every array as long along
    axis 1 as its sequence; [archives_ok] states it of every file of a
    world. *)
Definition archive_ok {F} (a : archive F) : Prop :=
  length (activations a) = length (entries a) /\
  length (entries a) = length (sequences a) /\
  Forall2 (fun arr s => dim1 arr = String.length s)
          (activations a) (sequences a).

(** ** Top-k sparsification *)

Section TopK.
Context {F : Type} `{Scalar F}.

(** Number of non-zero entries of a vector. *)
Definition count_nonzero (v : vec F) : nat :=
  length (filter (fun a => negb (fis_zero a)) v).

(** The entries of a vector with their positions. *)
Definition indexed (v : vec F) : list (nat * F) :=
  combine (seq 0 (length v)) v.

(** Insertion into a list ordered by decreasing magnitude. *)
Fixpoint insert_desc (p : nat * F) (l : list (nat * F)) : list (nat * F) :=
  match l with
  | [] => [p]
  | q :: l' =>
      if fmag_leb (snd q) (snd p) then p :: l
      else q :: insert_desc p l'
  end.

Definition sort_desc (l : list (nat * F)) : list (nat * F) :=
  fold_right insert_desc [] l.

(** Positions of the [k_value] entries of largest magnitude. *)
Definition topk_indices (k_value : nat) (v : vec F) : list nat :=
  map fst (firstn k_value (sort_desc (indexed v))).

Definition top_k_sparsify_row (k_value : nat) (v : vec F) : vec F :=
  map (fun p => if existsb (Nat.eqb (fst p)) (topk_indices k_value v)
                then snd p else fzero)
      (indexed v).

(** Modelled from the spec: the transcoder's [top_k_sparsify], called as
    [clt.topK_activation] and defined in [clt_module], which is not among
    the sources: "keep the k largest-magnitude entries per token position,
    zero the rest", for each (batch, token) row of the pre-activation
    tensor. *)
Definition top_k_sparsify (x : tensor3 F) (k_value : nat) : tensor3 F :=
  map (map (top_k_sparsify_row k_value)) x.

(** Every token position of every batch element has at most [n] non-zero
    entries. *)
Definition sparse (n : nat) (x : tensor3 F) : Prop :=
  Forall (Forall (fun v => count_nonzero v <= n)) x.

End TopK.

(** ** The collaborators' contracts

    What the program relies on: the tokenizer brackets every sequence with a
    leading and a trailing marker and pads to a common length; the encoder
    keeps the (T, B, E) layout; the transcoder has one bias and one encoder
    per layer and maps (B, T, E) to (B, T, H). *)

Record collaborators_ok {F} (clt : CLT F) (esm_model : EsmModel F)
       (E H : nat) : Prop := {
  ok_tokens : forall batch_seqs,
    exists T,
      shape2 (length batch_seqs) T (batch_converter esm_model (protein batch_seqs)) /\
      Forall (fun s => String.length s + 2 <= T) batch_seqs;
  ok_embed : forall toks B T,
    shape2 B T toks -> shape3 B T E (embed_tokens esm_model toks);
  ok_layers :
    Forall (fun layer => forall x m hw T B,
                shape3 T B E x -> shape3 T B E (layer x m hw))
           (layers esm_model);
  ok_LN : forall x B T, shape3 B T E x -> shape3 B T E (LN clt x);
  ok_b_pre_len : length (b_pre clt) = num_layers clt;
  ok_b_pre : Forall (fun b => length b = E) (b_pre clt);
  ok_encoders_len : length (encoders clt) = num_layers clt;
  ok_encoders :
    Forall (fun enc => forall x B T, shape3 B T E x -> shape3 B T H (enc x))
           (encoders clt);
  ok_b_enc_len : length (b_enc clt) = num_layers clt;
  ok_b_enc : Forall (fun b => length b = H) (b_enc clt);
  ok_topK : forall x k_value B T,
    shape3 B T H x -> shape3 B T H (topK_activation clt x k_value)
}.

(** The sampler returns as many rows as asked for when the frame has them. *)
Definition sample_ok (sample : DataFrame -> nat -> bool -> nat -> DataFrame)
  : Prop :=
  forall df n shuffle seed,
    n <= df_len df -> df_len (sample df n shuffle seed) = n.

(** ** A small instance

    Integer scalars, a tokenizer with the marker layout, two encoder layers,
    a two-layer transcoder with E = 2, H = 4 and k = 2.  Used to run the
    pipeline on concrete inputs. *)

#[global] Instance Scalar_Z : Scalar Z := {
  fzero := 0%Z;
  fadd := Z.add;
  fsub := Z.sub;
  fmul := Z.mul;
  fis_zero := Z.eqb 0%Z;
  fmag_leb := fun a b => Z.leb (Z.abs a) (Z.abs b)
}.

Module Toy.

Definition cls_idx : nat := 0.
Definition pad_idx : nat := 1.
Definition eos_idx : nat := 2.

Definition encode (s : string) : list nat :=
  map (fun c => 4 + nat_of_ascii c) (list_ascii_of_string s).

Definition max_len (data : list (string * string)) : nat :=
  fold_right Nat.max 0 (map (fun d => length (encode (snd d))) data).

Definition toy_batch_converter (data : list (string * string)) : tokens :=
  map (fun d =>
         let e := encode (snd d) in
         (cls_idx :: e) ++ [eos_idx] ++ repeat pad_idx (max_len data - length e))
      data.

Definition toy_layer (x : tensor3 Z) (m : option mask) (hw : bool)
  : tensor3 Z :=
  map (map (map (fun a => match m with
                          | None => (a + 1)%Z
                          | Some _ => 0%Z
                          end))) x.

Definition toy_esm : EsmModel Z := {|
  batch_converter := toy_batch_converter;
  padding_idx := pad_idx;
  embed_scale := 2%Z;
  embed_tokens := map (map (fun t => [Z.of_nat t; (-3)%Z]));
  layers := [toy_layer; toy_layer; toy_layer]
|}.

Definition toy_encoder (x : tensor3 Z) : tensor3 Z :=
  map (map (fun r => r ++ map Z.opp r)) x.

Definition toy_clt : CLT Z := {|
  num_layers := 2;
  k := 2;
  LN := fun x => x;
  b_pre := [[0%Z; 1%Z]; [1%Z; 0%Z]];
  encoders := [toy_encoder; toy_encoder];
  b_enc := [[0%Z; 0%Z; 1%Z; 0%Z]; [1%Z; 0%Z; 0%Z; 0%Z]];
  topK_activation := top_k_sparsify
|}.

(** A transcoder asking for more layers than the encoder has. *)
Definition deep_clt : CLT Z := {|
  num_layers := 5;
  k := 2;
  LN := fun x => x;
  b_pre := repeat [0%Z; 1%Z] 5;
  encoders := repeat toy_encoder 5;
  b_enc := repeat [0%Z; 0%Z; 1%Z; 0%Z] 5;
  topK_activation := top_k_sparsify
|}.

Definition toy_sample (df : DataFrame) (n : nat) (shuffle : bool)
           (seed : nat) : DataFrame :=
  {| columns := columns df; rows := firstn n (rows df) |}.

Definition toy_columns : list string :=
  ["Entry"%string; "Sequence"%string; "InterPro"%string].

Definition toy_df : DataFrame := {|
  columns := toy_columns;
  rows := [ {| Entry := "P1"; Sequence := "MKV"; InterPro := Some "IPR000786;IPR000001"%string |};
            {| Entry := "P2"; Sequence := "ACDEF"; InterPro := None |};
            {| Entry := "P3"; Sequence := "GH"; InterPro := Some "IPR000786"%string |} ]
|}.

(** Every row is a member of IPR000786: its negatives group is empty. *)
Definition members_df : DataFrame := {|
  columns := toy_columns;
  rows := [ {| Entry := "P1"; Sequence := "MKV"; InterPro := Some "IPR000786"%string |} ]
|}.

End Toy.

Definition archives_ok {F} (w : world F) : Prop :=
  Forall archive_ok (map snd (files w)).

(** One array of shape (n, len(s), Hd) per sequence [s]. *)
Definition arrays_of_shape {F} (n Hd : nat) (acts : list (tensor3 F))
           (seqs : list string) : Prop :=
  Forall2 (fun arr s => shape3 n (String.length s) Hd arr) acts seqs.

(** The archive written for a sampled data frame, and its file name. *)
Definition archive_of {F} (acts : list (tensor3 F)) (dataframe : DataFrame)
  : archive F :=
  {| activations := acts;
     entries := map Entry (rows dataframe);
     sequences := map Sequence (rows dataframe) |}.

Definition out_file_of (output_dir name target_id : string) : string :=
  path_join output_dir (name ++ "_" ++ target_id ++ ".npz")%string.

(** Row [b_idx] of every layer tensor, cut to the token range [1, L+1). *)
Definition residue_slices {F} (layers_data : list (tensor3 F))
           (b_idx L : nat) : tensor3 F :=
  map (fun layer => slice 1 (1 + L) (nth b_idx layer [])) layers_data.

(** The encoder with every layer called without a padding mask and without
    head weights, whatever the caller passes. *)
Definition unmasked {F} (esm_model : EsmModel F) : EsmModel F :=
  {| batch_converter := batch_converter esm_model;
     padding_idx := padding_idx esm_model;
     embed_scale := embed_scale esm_model;
     embed_tokens := embed_tokens esm_model;
     layers := map (fun layer => fun x (_ : option mask) (_ : bool) =>
                                   layer x None false)
                   (layers esm_model) |}.

(** The encoder with another padding index. *)
Definition with_padding_idx {F} (esm_model : EsmModel F) (p : nat)
  : EsmModel F :=
  {| batch_converter := batch_converter esm_model;
     padding_idx := p;
     embed_scale := embed_scale esm_model;
     embed_tokens := embed_tokens esm_model;
     layers := layers esm_model |}.

(** * Selection of latents from an archive, [extract_activations.py]

    The script reads the first sequence and the first array of an archive
    and, for every layer listed in [ipr_data['nodes']], keeps the non-zero
    values of the selected latents at every position. *)

(** [str(n)] for a non-negative integer. *)
Definition py_str (n : nat) : string :=
  NilZero.string_of_uint (Nat.to_uint n).

(** A JSON object read as a dict with string keys: [key in d] and [d[key]]. *)
Fixpoint dict_get {V} (d : list (string * V)) (key : string) : option V :=
  match d with
  | [] => None
  | (k', v) :: d' => if String.eqb k' key then Some v else dict_get d' key
  end.

(** Whether an integer fits the array index type, a 64-bit signed integer. *)
Definition fits_index (i : Z) : bool :=
  ((- 2 ^ 63 <=? i) && (i <? 2 ^ 63))%Z.

(** The exception of an index outside [-n, n): IndexError when it fits the
    index type, OverflowError when it does not. *)
Definition index_error (i : Z) : error :=
  if fits_index i then IndexError else OverflowError.

(** [values[i]] on a one-dimensional array: a negative index counts from the
    end, an index outside [-n, n) raises.  An index inside [-n, n) fits the
    index type, an array having fewer than 2^63 elements. *)
Definition np_index {F} (values : list F) (i : Z) : result F :=
  let n := Z.of_nat (length values) in
  if ((0 <=? i) && (i <? n))%Z then index values (Z.to_nat i)
  else if ((- n <=? i) && (i <? 0))%Z then index values (Z.to_nat (i + n))
  else Err (index_error i).

(** An element of [activations_list]:
    [[layer_idx, seq_idx, value, int(latent_idx)]]. *)
Definition event (F : Type) : Type := (nat * nat * F * Z)%type.

Section ExtractActivations.
Context {F : Type}.
(** [math.fabs(value) > 0] *)
Variable fabs_pos : F -> bool.

(** [for latent_idx in selected_indices] at one position. *)
Fixpoint select_values (values : list F) (layer_idx seq_idx : nat)
         (selected_indices : list Z) : result (list (event F)) :=
  match selected_indices with
  | [] => Ok []
  | latent_idx :: rest =>
      value <- np_index values latent_idx ;;
      more <- select_values values layer_idx seq_idx rest ;;
      Ok (if fabs_pos value
          then (layer_idx, seq_idx, value, latent_idx) :: more
          else more)
  end.

(** [for seq_idx in range(activation.shape[1])] for one listed layer. *)
Definition select_layer (activation : tensor3 F) (layer_idx : nat)
           (selected_indices : list Z) : result (list (event F)) :=
  per_position <-
    mapM (fun seq_idx =>
            layer <- index activation layer_idx ;;
            values <- index layer seq_idx ;;
            select_values values layer_idx seq_idx selected_indices)
         (seq 0 (dim1 activation)) ;;
  Ok (concat per_position).

(** [for layer_idx in range(activation.shape[0])]; a layer whose key is not
    in [feature_nodes] is passed over. *)
Definition select_events (activation : tensor3 F)
           (feature_nodes : list (string * list Z))
  : result (list (event F)) :=
  per_layer <-
    mapM (fun layer_idx =>
            let layer_key := py_str layer_idx in
            match dict_get feature_nodes layer_key with
            | None => Ok []
            | Some selected_indices =>
                select_layer activation layer_idx selected_indices
            end)
         (seq 0 (length activation)) ;;
  Ok (concat per_layer).

(** The script from the loaded archive and the loaded [ipr_data['nodes']] on:
    the sequence it prints and the list it saves. *)
Definition extract_activations (data : archive F)
           (feature_nodes : list (string * list Z))
  : result (string * list (event F)) :=
  sequence <- index (sequences data) 0 ;;
  activation <- index (activations data) 0 ;;
  activations_list <- select_events activation feature_nodes ;;
  Ok (sequence, activations_list).

End ExtractActivations.

(** Whether a target has a matching row, and inputs for the cases below. *)
Definition matched (df : DataFrame) (target_id : string) : bool :=
  negb (df_len (df_filter df (has_target df target_id)) =? 0).

Module Cases.

Definition no_family_df : DataFrame := {|
  columns := ["Entry"%string; "Sequence"%string];
  rows := [ {| Entry := "P1"; Sequence := "MKV"; InterPro := None |} ]
|}.

(** A transcoder without layers. *)
Definition flat_clt : CLT Z := {|
  num_layers := 0;
  k := 2;
  LN := fun x => x;
  b_pre := [];
  encoders := [];
  b_enc := [];
  topK_activation := top_k_sparsify
|}.

(** Two layer tensors for a batch of two with four token positions. *)
Definition short_layers : list (tensor3 Z) :=
  [ [ [[1%Z]; [2%Z]; [3%Z]; [4%Z]]; [[5%Z]; [6%Z]; [7%Z]; [8%Z]] ];
    [ [[9%Z]; [10%Z]; [11%Z]; [12%Z]]; [[13%Z]; [14%Z]; [15%Z]; [16%Z]] ] ].

Definition nodes : list (string * list Z) :=
  [("0"%string, [0%Z; 2%Z]); ("1"%string, [(-1)%Z])].

Definition nonzero (v : Z) : bool := negb (Z.eqb v 0).



End Cases.

(** * Conversion to JSON values, [extract_top_activations.py]

    [convert_to_json] on Python objects: a tensor or an array (anything with
    [tolist]), a dict with string or integer keys, a list, a tuple, or
    another value, which is returned as it is.  The elements of an array are
    objects: plain scalars for a numeric array, any object for an array of
    dtype object. *)

Set Warnings "-register-all".

Inductive pykey : Type :=
| KStr (s : string)
| KInt (z : Z).

Definition key_eqb (a b : pykey) : bool :=
  match a, b with
  | KStr s, KStr t => String.eqb s t
  | KInt x, KInt y => Z.eqb x y
  | _, _ => false
  end.

(** [str(k)] *)
Definition key_str (k : pykey) : string :=
  match k with
  | KStr s => s
  | KInt z => NilZero.string_of_int (Z.to_int z)
  end.

(** An array by its nesting: a scalar, or the sub-arrays along axis 0. *)
Inductive ndarray (A : Type) : Type :=
| NdScalar (a : A)
| NdAxis (elems : list (ndarray A)).

Inductive pyobj (A : Type) : Type :=
| PyArray (t : ndarray (pyobj A))
| PyDict (items : list (pykey * pyobj A))
| PyList (xs : list (pyobj A))
| PyTuple (xs : list (pyobj A))
| PyOther (a : A).

Arguments NdScalar {A} a.
Arguments NdAxis {A} elems.
Arguments PyArray {A} t.
Arguments PyDict {A} items.
Arguments PyList {A} xs.
Arguments PyTuple {A} xs.
Arguments PyOther {A} a.

(** [t.tolist()]: nested lists of the elements, which are handed back as
    they are. *)
Fixpoint tolist {A} (t : ndarray (pyobj A)) : pyobj A :=
  match t with
  | NdScalar o => o
  | NdAxis elems => PyList (map tolist elems)
  end.

(** An array of plain scalars. *)
Fixpoint numeric {A} (t : ndarray (pyobj A)) : bool :=
  match t with
  | NdScalar (PyOther _) => true
  | NdScalar _ => false
  | NdAxis elems => forallb numeric elems
  end.

(** [d[key] = v] on the items of a dict, kept in insertion order. *)
Fixpoint dict_put {V} (items : list (pykey * V)) (key : pykey) (v : V)
  : list (pykey * V) :=
  match items with
  | [] => [(key, v)]
  | (k', v') :: rest =>
      if key_eqb k' key then (k', v) :: rest
      else (k', v') :: dict_put rest key v
  end.

(** [{k: v for k, v in pairs}] *)
Definition dict_of {V} (pairs : list (pykey * V)) : list (pykey * V) :=
  fold_left (fun d kv => dict_put d (fst kv) (snd kv)) pairs [].

Fixpoint convert_to_json {A} (obj : pyobj A) : pyobj A :=
  match obj with
  | PyArray t => tolist t
  | PyDict items =>
      PyDict (dict_of (map (fun kv => match kv with
                                      | (k0, v) =>
                                          (KStr (key_str k0), convert_to_json v)
                                      end) items))
  | PyList xs => PyList (map convert_to_json xs)
  | PyTuple xs => PyList (map convert_to_json xs)
  | PyOther a => PyOther a
  end.

(** Every array met by the conversion, that is outside the elements of
    another array, is numeric. *)
Fixpoint numeric_arrays {A} (obj : pyobj A) : bool :=
  match obj with
  | PyArray t => numeric t
  | PyDict items =>
      forallb (fun kv => match kv with
                         | (_, v) => numeric_arrays v
                         end) items
  | PyList xs => forallb numeric_arrays xs
  | PyTuple xs => forallb numeric_arrays xs
  | PyOther _ => true
  end.

(** What [json.dump] accepts, as far as this conversion is concerned: no
    array, no tuple, only string keys. *)
Fixpoint json_ready {A} (obj : pyobj A) : bool :=
  match obj with
  | PyArray _ => false
  | PyDict items =>
      forallb (fun kv => match kv with
                         | (KStr _, v) => json_ready v
                         | (KInt _, _) => false
                         end) items
  | PyList xs => forallb json_ready xs
  | PyTuple _ => false
  | PyOther _ => true
  end.

(** * The directory after a run *)

(** The content of a file in a log of writes: its newest entry. *)
Fixpoint read_file {F} (fs : list (string * archive F)) (name : string)
  : option (archive F) :=
  match fs with
  | [] => None
  | (n, a) :: fs' => if String.eqb n name then Some a else read_file fs' name
  end.

(** The names written by the loop over [targets], oldest first: the
    positives then the negatives archive of every target with a match. *)
Definition written_names (df : DataFrame) (output_dir : string)
           (targets : list string) : list string :=
  flat_map (fun t => [out_file_of output_dir "positives" t;
                      out_file_of output_dir "negatives" t])
           (filter (matched df) targets).

(** A write of the loop over [targets]: the archive of one group of one
    matched target.  Its entries and sequences are the two columns of the
    sampled frame, row by row in the order of the sample, and its arrays are
    the latents computed from its sequences, batch after batch. *)
Definition write_of_run {F} {SF : Scalar F} (clt : CLT F)
           (esm_model : EsmModel F)
           (sample : DataFrame -> nat -> bool -> nat -> DataFrame)
           (df : DataFrame) (output_dir : string) (n_samples : nat)
           (targets : list string) (f : string * archive F) : Prop :=
  exists target_id name group,
    In target_id targets /\ matched df target_id = true /\
    ((name = "positives"%string /\
      group = df_filter df (has_target df target_id)) \/
     (name = "negatives"%string /\
      group = df_filter df (map negb (has_target df target_id)))) /\
    let dataframe :=
      sample group (Nat.min (df_len group) n_samples) true 42 in
    fst f = out_file_of output_dir name target_id /\
    entries (snd f) = map Entry (rows dataframe) /\
    sequences (snd f) = map Sequence (rows dataframe) /\
    (bs <- batches batch_size (sequences (snd f)) ;;
     collect_latents clt esm_model bs []) = Ok (activations (snd f)).

(** * Properties *)

(** ** Facts about the batcher *)

Lemma ceil_div_step (d step : nat) :
  0 < step -> 0 < d ->
  (d + step - 1) / step = S ((d - step + step - 1) / step).
Proof.
  intros Hs Hd.
  destruct (le_lt_dec step d) as [Hle | Hlt].
  - replace (d + step - 1) with ((d - step + step - 1) + 1 * step) by lia.
    rewrite Nat.div_add by lia. lia.
  - replace (d - step) with 0 by lia. simpl.
    rewrite (Nat.div_small (step - 1) step) by lia.
    symmetry. apply Nat.div_unique with (r := d - 1); lia.
Qed.

Lemma range_from_spec (stop step : nat) :
  0 < step ->
  forall fuel start, stop - start <= fuel ->
    range_from fuel start stop step =
    map (fun j => start + j * step) (seq 0 (ceil_div (stop - start) step)).
Proof.
  intros Hs. unfold ceil_div.
  induction fuel as [| fuel IH]; intros start Hf; simpl.
  - replace (stop - start) with 0 by lia. simpl.
    rewrite Nat.div_small by lia. reflexivity.
  - destruct (start <? stop) eqn:Hlt.
    + apply Nat.ltb_lt in Hlt.
      rewrite (ceil_div_step (d := stop - start) Hs) by lia.
      rewrite IH by lia.
      replace (stop - (start + step)) with (stop - start - step) by lia.
      cbn [seq map]. f_equal; [lia |].
      rewrite <- seq_shift, map_map.
      apply map_ext. intros j. simpl. lia.
    + apply Nat.ltb_ge in Hlt.
      replace (stop - start) with 0 by lia. simpl.
      rewrite Nat.div_small by lia. reflexivity.
Qed.

Lemma py_range_spec (stop step : nat) :
  0 < step ->
  py_range 0 stop step =
  Ok (map (fun j => j * step) (seq 0 (ceil_div stop step))).
Proof.
  intros Hs. unfold py_range.
  destruct (step =? 0) eqn:E; [apply Nat.eqb_eq in E; lia |].
  rewrite range_from_spec by lia.
  rewrite Nat.sub_0_r. reflexivity.
Qed.

Lemma batches_spec {A} (B : nat) (seqs : list A) :
  0 < B ->
  batches B seqs =
  Ok (map (fun j => slice (j * B) (j * B + B) seqs)
          (seq 0 (ceil_div (length seqs) B))).
Proof.
  intros HB. unfold batches. rewrite py_range_spec by assumption.
  simpl. rewrite map_map. reflexivity.
Qed.

Lemma slice_firstn_skipn {A} (a b : nat) (l : list A) :
  slice a (a + b) l = firstn b (skipn a l).
Proof. unfold slice. f_equal. lia. Qed.

Lemma firstn_plus {A} (a b : nat) (l : list A) :
  firstn (a + b) l = firstn a l ++ firstn b (skipn a l).
Proof.
  revert l. induction a as [| a IH]; intros [| x l]; simpl;
    try reflexivity.
  - now rewrite firstn_nil.
  - now rewrite IH.
Qed.

Lemma concat_chunks {A} (B : nat) (l : list A) (n : nat) :
  concat (map (fun j => slice (j * B) (j * B + B) l) (seq 0 n)) =
  firstn (n * B) l.
Proof.
  induction n as [| n IH].
  - reflexivity.
  - rewrite seq_S, map_app, concat_app, IH. simpl.
    rewrite app_nil_r, slice_firstn_skipn.
    replace (B + n * B) with (n * B + B) by lia.
    rewrite firstn_plus. reflexivity.
Qed.

Lemma ceil_div_covers (n b : nat) : 0 < b -> n <= ceil_div n b * b.
Proof.
  intros Hb. unfold ceil_div.
  pose proof (Nat.div_mod_eq (n + b - 1) b) as E.
  pose proof (Nat.mod_upper_bound (n + b - 1) b ltac:(lia)) as U.
  nia.
Qed.

Lemma ceil_div_tight (n b j : nat) :
  0 < b -> j < ceil_div n b -> j * b < n.
Proof.
  intros Hb. unfold ceil_div. intros Hj.
  pose proof (Nat.div_mod_eq (n + b - 1) b) as E.
  pose proof (Nat.mod_upper_bound (n + b - 1) b ltac:(lia)) as U.
  nia.
Qed.

Lemma slice_length {A} (a b : nat) (l : list A) :
  length (slice a b l) = Nat.min (b - a) (length l - a).
Proof. unfold slice. rewrite length_firstn, length_skipn. reflexivity. Qed.

Lemma nth_map_seq {A} (f : nat -> A) (n j : nat) (d : A) :
  j < n -> nth j (map f (seq 0 n)) d = f j.
Proof.
  intros Hj.
  rewrite (nth_indep _ d (f 0)) by (rewrite length_map, length_seq; exact Hj).
  rewrite map_nth, seq_nth by exact Hj. reflexivity.
Qed.

Lemma chunk_length {A} (B j : nat) (l : list A) :
  length (slice (j * B) (j * B + B) l) = Nat.min B (length l - j * B).
Proof. rewrite slice_length. f_equal. lia. Qed.

Lemma batches_cover {A} (B : nat) (seqs : list A) :
  0 < B ->
  exists bs,
    batches B seqs = Ok bs /\ concat bs = seqs /\
    forall j, j < length bs -> 0 < length (nth j bs []).
Proof.
  intros HB. rewrite batches_spec by exact HB.
  eexists. split; [reflexivity |]. split.
  - rewrite concat_chunks. apply firstn_all2. now apply ceil_div_covers.
  - rewrite length_map, length_seq. intros j Hj.
    rewrite nth_map_seq by exact Hj. rewrite chunk_length.
    pose proof (@ceil_div_tight (length seqs) B _ HB Hj). lia.
Qed.

(** C4.  For a positive batch size B the batcher cuts a list of N sequences
    into ceil(N/B) batches; batch j is the contiguous range [j*B, j*B+B) of
    the input, so the batches do not overlap and keep the input order;
    concatenating them gives the input back; every batch but the last has
    exactly B elements and the last one between 1 and B. *)
Theorem batches_contract {A} (B : nat) (seqs : list A) :
  0 < B ->
  exists bs,
    batches B seqs = Ok bs /\
    length bs = ceil_div (length seqs) B /\
    (length seqs <= length bs * B /\
     forall m, length seqs <= m * B -> length bs <= m) /\
    concat bs = seqs /\
    (forall j, j < length bs ->
       nth j bs [] = slice (j * B) (j * B + B) seqs) /\
    (forall j, S j < length bs -> length (nth j bs []) = B) /\
    (forall j, j < length bs -> 0 < length (nth j bs []) <= B).
Proof.
  intros HB.
  rewrite batches_spec by exact HB.
  eexists. split; [reflexivity |].
  rewrite length_map, length_seq.
  assert (Hnth : forall j, j < ceil_div (length seqs) B ->
            nth j (map (fun j => slice (j * B) (j * B + B) seqs)
                       (seq 0 (ceil_div (length seqs) B))) [] =
            slice (j * B) (j * B + B) seqs).
  { intros j Hj. now rewrite nth_map_seq. }
  repeat split.
  - now apply ceil_div_covers.
  - intros m Hm.
    destruct (le_lt_dec (ceil_div (length seqs) B) m) as [Hle | Hlt];
      [exact Hle |].
    pose proof (@ceil_div_tight (length seqs) B _ HB Hlt). lia.
  - rewrite concat_chunks. apply firstn_all2. now apply ceil_div_covers.
  - exact Hnth.
  - intros j Hj. rewrite Hnth by lia. rewrite chunk_length.
    pose proof (@ceil_div_tight (length seqs) B _ HB Hj). lia.
  - rewrite Hnth by assumption. rewrite chunk_length.
    pose proof (@ceil_div_tight (length seqs) B _ HB H). lia.
  - rewrite Hnth by assumption. rewrite chunk_length. lia.
Qed.

(** The batcher on three sequences with batch size 2. *)
Lemma batches_contract_witness :
  exists bs,
    batches 2 ["AAAAA"; "CCCCCCCCC"; "DDDDD"]%string = Ok bs /\
    length bs = ceil_div 3 2 /\
    (3 <= length bs * 2 /\ forall m, 3 <= m * 2 -> length bs <= m) /\
    concat bs = ["AAAAA"; "CCCCCCCCC"; "DDDDD"]%string /\
    (forall j, j < length bs ->
       nth j bs [] =
       slice (j * 2) (j * 2 + 2) ["AAAAA"; "CCCCCCCCC"; "DDDDD"]%string) /\
    (forall j, S j < length bs -> length (nth j bs []) = 2) /\
    (forall j, j < length bs -> 0 < length (nth j bs []) <= 2).
Proof.
  apply (@batches_contract string 2 ["AAAAA"; "CCCCCCCCC"; "DDDDD"]%string).
  lia.
Defined.

(** ** Results and loops *)

Lemma mapM_length {A B} (f : A -> result B) (xs : list A) (ys : list B) :
  mapM f xs = Ok ys -> length ys = length xs.
Proof.
  revert ys. induction xs as [| x xs IH]; simpl; intros ys E.
  - inversion E. reflexivity.
  - destruct (f x) as [y | e]; simpl in E; [| discriminate].
    destruct (mapM f xs) as [ys' | e]; simpl in E; [| discriminate].
    inversion E. simpl. f_equal. now apply IH.
Qed.

Lemma mapM_ok_map {A B} (f : A -> result B) (g : A -> B) (xs : list A) :
  (forall x, In x xs -> f x = Ok (g x)) -> mapM f xs = Ok (map g xs).
Proof.
  induction xs as [| x xs IH]; simpl; intros Hf.
  - reflexivity.
  - rewrite Hf by now left. simpl.
    rewrite IH by (intros; apply Hf; now right). reflexivity.
Qed.

Lemma index_ok {A} (l : list A) (i : nat) (d : A) :
  i < length l -> index l i = Ok (nth i l d).
Proof.
  intros Hi. unfold index.
  rewrite (nth_error_nth' l d Hi). reflexivity.
Qed.

Lemma map_nth_seq {A B} (g : A -> B) (l : list A) (d : A) :
  map (fun i => g (nth i l d)) (seq 0 (length l)) = map g l.
Proof.
  induction l as [| a l IH]; simpl.
  - reflexivity.
  - f_equal. rewrite <- seq_shift, map_map. exact IH.
Qed.

Lemma Forall2_map_seq {A B} (P : B -> A -> Prop) (g : nat -> A -> B)
      (l : list A) (d : A) :
  (forall i, i < length l -> P (g i (nth i l d)) (nth i l d)) ->
  Forall2 P (map (fun i => g i (nth i l d)) (seq 0 (length l))) l.
Proof.
  revert g. induction l as [| a l IH]; simpl; intros g Hg.
  - constructor.
  - constructor.
    + apply (Hg 0). lia.
    + rewrite <- seq_shift, map_map.
      apply (IH (fun i => g (S i))).
      intros i Hi. apply (Hg (S i)). lia.
Qed.

(** ** Shapes *)

Lemma shape3_nth {A} (a b c : nat) (x : list (list (list A))) (i : nat) :
  shape3 a b c x -> i < a -> shape2 b c (nth i x []).
Proof.
  intros [Hl Hx] Hi. rewrite Forall_forall in Hx.
  apply Hx, nth_In. lia.
Qed.

Lemma shape2_nth {A} (b c : nat) (m : list (list A)) (j : nat) :
  shape2 b c m -> j < b -> length (nth j m []) = c.
Proof.
  intros [Hl Hm] Hj. rewrite Forall_forall in Hm.
  apply Hm, nth_In. lia.
Qed.

Lemma shape3_dim1 {A} (a b c : nat) (x : list (list (list A))) :
  shape3 a b c x -> 0 < a -> dim1 x = b.
Proof.
  intros [Hl Hx] Ha. destruct x as [| m x]; simpl in *; [lia |].
  inversion Hx as [| ? ? [Hm _] _]. exact Hm.
Qed.

Lemma shape2_dim1 {A} (b c : nat) (m : list (list A)) :
  shape2 b c m -> dim1 m = if b =? 0 then 0 else c.
Proof.
  intros [Hl Hm]. destruct m as [| r m]; simpl in *.
  - subst b. reflexivity.
  - subst b. simpl. now inversion Hm.
Qed.

Lemma transpose01_shape {F} (B T E : nat) (x : tensor3 F) :
  0 < B -> shape3 B T E x -> shape3 T B E (transpose01 x).
Proof.
  intros HB Hx. unfold transpose01.
  pose proof (shape3_dim1 Hx HB) as Hd.
  rewrite Hd.
  split.
  - now rewrite length_map, length_seq.
  - apply Forall_map, Forall_forall. intros j Hj.
    apply in_seq in Hj. split.
    + rewrite length_map. apply Hx.
    + apply Forall_map. destruct Hx as [_ Hx].
      eapply Forall_impl; [| exact Hx].
      intros m Hm. apply (shape2_nth Hm). lia.
Qed.

Lemma map3_shape {A B'} (f : A -> B') (a b c : nat)
      (x : list (list (list A))) :
  shape3 a b c x -> shape3 a b c (map (map (map f)) x).
Proof.
  intros [Hl Hx]. split.
  - now rewrite length_map.
  - apply Forall_map. eapply Forall_impl; [| exact Hx].
    intros m [Hm Hr]. split.
    + now rewrite length_map.
    + apply Forall_map. eapply Forall_impl; [| exact Hr].
      intros r Hlen. now rewrite length_map.
Qed.

Lemma zip_with_length {A} (op : A -> A -> A) (u v : list A) :
  length u = length v -> length (zip_with op u v) = length u.
Proof.
  intros E. unfold zip_with.
  rewrite length_map, length_combine. lia.
Qed.

Lemma broadcast_last_ok {F} (op : F -> F -> F) (a b c : nat)
      (x : tensor3 F) (v : vec F) :
  shape3 a b c x -> length v = c ->
  exists y, broadcast_last op x v = Ok y /\ shape3 a b c y.
Proof.
  intros [Hl Hx] Hv. unfold broadcast_last.
  assert (Hchk : forallb (forallb (fun r => length r =? length v)) x = true).
  { apply forallb_forall. intros m Hm.
    rewrite Forall_forall in Hx. destruct (Hx m Hm) as [_ Hr].
    apply forallb_forall. intros r Hin.
    rewrite Forall_forall in Hr. apply Nat.eqb_eq.
    rewrite (Hr r Hin). now symmetry. }
  rewrite Hchk. eexists. split; [reflexivity |].
  split.
  - now rewrite length_map.
  - apply Forall_map. eapply Forall_impl; [| exact Hx].
    intros m [Hm Hr]. split.
    + now rewrite length_map.
    + apply Forall_map. eapply Forall_impl; [| exact Hr].
      intros r Hlen. cbv beta in Hlen.
      rewrite zip_with_length; congruence.
Qed.

Lemma in_slice {A} (a e : nat) (l : list A) (x : A) :
  In x (slice a e l) -> In x l.
Proof.
  unfold slice. intros Hx.
  rewrite <- (firstn_skipn a l). apply in_or_app. right.
  rewrite <- (firstn_skipn (e - a) (skipn a l)). apply in_or_app. now left.
Qed.

Lemma slice_shape {A} (a e b c : nat) (m : list (list A)) :
  shape2 b c m -> shape2 (Nat.min (e - a) (b - a)) c (slice a e m).
Proof.
  intros [Hl Hm]. split.
  - rewrite slice_length. now rewrite Hl.
  - rewrite Forall_forall in *.
    intros r Hr. apply Hm. eapply in_slice, Hr.
Qed.

Lemma stack_ok {F} (a c : nat) (ts : list (mat F)) :
  ts <> [] -> Forall (shape2 a c) ts -> stack ts = Ok ts.
Proof.
  intros Hne Hts. destruct ts as [| t rest]; [congruence |].
  unfold stack.
  inversion Hts as [| ? ? Ht Hrest]; subst.
  assert (Hchk : forallb (fun u => (length u =? length t) && (dim1 u =? dim1 t))
                         rest = true).
  { apply forallb_forall. intros u Hu.
    rewrite Forall_forall in Hrest. specialize (Hrest u Hu).
    rewrite (shape2_dim1 Hrest), (shape2_dim1 Ht).
    destruct Hrest as [Hlu _]. destruct Ht as [Hlt _].
    rewrite Hlu, Hlt, !Nat.eqb_refl. reflexivity. }
  rewrite Hchk. reflexivity.
Qed.

(** ** The extractor and the reassembler under the collaborators' contracts *)

Section Pipeline.
Context {F : Type} {SF : Scalar F}.
Variable clt : CLT F.
Variable esm_model : EsmModel F.
Variables E Hd : nat.
Hypothesis Hok : collaborators_ok clt esm_model E Hd.

Lemma layer_loop_ok (k_value B T : nat) :
  0 < B -> 0 < T ->
  forall ls layer_idx x,
    Forall (fun layer => forall x m hw T B,
                shape3 T B E x -> shape3 T B E (layer x m hw)) ls ->
    shape3 T B E x ->
    exists ld,
      layer_loop clt (num_layers clt) k_value layer_idx ls x = Ok ld /\
      length ld = Nat.min (num_layers clt - layer_idx) (length ls) /\
      Forall (shape3 B T Hd) ld.
Proof.
  intros HB HT.
  induction ls as [| layer rest IH]; intros idx x Hls Hx; cbn [layer_loop].
  - exists []. split; [reflexivity |]. split; [simpl; lia | constructor].
  - destruct (num_layers clt <=? idx) eqn:Hle.
    + apply Nat.leb_le in Hle. exists [].
      split; [reflexivity |]. split; [simpl; lia | constructor].
    + apply Nat.leb_gt in Hle.
      inversion Hls as [| ? ? Hlayer Hrest]; subst.
      pose proof (Hlayer x None false T B Hx) as Hx1.
      pose proof (transpose01_shape HT Hx1) as Hacts.
      pose proof (ok_LN Hok Hacts) as Hln.
      rewrite (index_ok (b_pre clt) [])
        by (rewrite (ok_b_pre_len Hok); exact Hle).
      cbn [rbind].
      destruct (broadcast_last_ok fsub (nth idx (b_pre clt) []) Hln)
        as [y [Ey Hy]].
      { pose proof (ok_b_pre Hok) as Hb. rewrite Forall_forall in Hb.
        apply Hb, nth_In. rewrite (ok_b_pre_len Hok). exact Hle. }
      rewrite Ey. cbn [rbind].
      rewrite (index_ok (encoders clt) (fun t => t))
        by (rewrite (ok_encoders_len Hok); exact Hle).
      cbn [rbind].
      rewrite (index_ok (b_enc clt) [])
        by (rewrite (ok_b_enc_len Hok); exact Hle).
      cbn [rbind].
      assert (Henc : shape3 B T Hd (nth idx (encoders clt) (fun t => t) y)).
      { pose proof (ok_encoders Hok) as He. rewrite Forall_forall in He.
        apply (He (nth idx (encoders clt) (fun t => t))); [| exact Hy].
        apply nth_In. rewrite (ok_encoders_len Hok). exact Hle. }
      destruct (broadcast_last_ok fadd (nth idx (b_enc clt) []) Henc)
        as [z [Ez Hz]].
      { pose proof (ok_b_enc Hok) as Hb. rewrite Forall_forall in Hb.
        apply Hb, nth_In. rewrite (ok_b_enc_len Hok). exact Hle. }
      rewrite Ez. cbn [rbind].
      destruct (IH (S idx) _ Hrest Hx1) as [more [Em [Hlen Hmore]]].
      rewrite Em. cbn [rbind].
      eexists. split; [reflexivity |]. split.
      * simpl. rewrite Hlen. lia.
      * constructor; [| exact Hmore].
        apply (ok_topK Hok). exact Hz.
Qed.

Lemma extract_layers_ok (batch_seqs : list string) (k_value : nat) :
  batch_seqs <> [] ->
  exists ld T,
    extract_layers clt esm_model batch_seqs k_value = Ok ld /\
    length ld = Nat.min (num_layers clt) (length (layers esm_model)) /\
    Forall (shape3 (length batch_seqs) T Hd) ld /\
    Forall (fun s => String.length s + 2 <= T) batch_seqs.
Proof.
  intros Hne. unfold extract_layers.
  destruct (ok_tokens Hok batch_seqs) as [T [Htok Hlay]].
  assert (HB : 0 < length batch_seqs)
    by (destruct batch_seqs; [congruence | simpl; lia]).
  assert (HT : 0 < T).
  { destruct batch_seqs as [| s ?]; [congruence |].
    inversion Hlay; subst. lia. }
  pose proof (ok_embed Hok Htok) as Hemb.
  pose proof (map3_shape (fmul (embed_scale esm_model)) Hemb) as Hsc.
  pose proof (transpose01_shape HB Hsc) as Hx.
  destruct (layer_loop_ok k_value HB HT 0 (ok_layers Hok) Hx)
    as [ld [Eld [Hlen Hld]]].
  exists ld, T. split; [exact Eld |]. split; [| split; assumption].
  rewrite Hlen. f_equal. lia.
Qed.

Lemma reassemble_one_ok (ld : list (tensor3 F)) (batch_seqs : list string)
      (T b_idx : nat) :
  ld <> [] ->
  Forall (shape3 (length batch_seqs) T Hd) ld ->
  b_idx < length batch_seqs ->
  reassemble_one ld batch_seqs b_idx =
  Ok (residue_slices ld b_idx
                     (String.length (nth b_idx batch_seqs ""%string))).
Proof.
  intros Hne Hld Hb. unfold reassemble_one.
  rewrite (index_ok batch_seqs ""%string Hb). cbn [rbind].
  set (L := String.length (nth b_idx batch_seqs ""%string)).
  rewrite (mapM_ok_map
             (slice_layer ld b_idx 1 (1 + L))
             (fun l => slice 1 (1 + L) (nth b_idx (nth l ld []) []))).
  - cbn [rbind].
    rewrite (map_nth_seq (fun layer => slice 1 (1 + L) (nth b_idx layer []))).
    fold (residue_slices ld b_idx L).
    apply (@stack_ok F (Nat.min (1 + L - 1) (T - 1)) Hd).
    + unfold residue_slices. destruct ld; [congruence | discriminate].
    + unfold residue_slices. apply Forall_map.
      eapply Forall_impl; [| exact Hld].
      intros layer Hlayer. apply slice_shape.
      apply (shape3_nth Hlayer Hb).
  - intros l Hl. apply in_seq in Hl.
    unfold slice_layer.
    rewrite (index_ok ld [] ) by lia. cbn [rbind].
    rewrite (index_ok (nth l ld []) []); [reflexivity |].
    rewrite Forall_forall in Hld.
    destruct (Hld (nth l ld [])) as [Hlen _]; [apply nth_In; lia |].
    rewrite Hlen. exact Hb.
Qed.

Lemma reassemble_ok (ld : list (tensor3 F)) (batch_seqs : list string)
      (T : nat) :
  ld <> [] ->
  Forall (shape3 (length batch_seqs) T Hd) ld ->
  reassemble ld batch_seqs =
  Ok (map (fun b => residue_slices ld b
                      (String.length (nth b batch_seqs ""%string)))
          (seq 0 (length batch_seqs))).
Proof.
  intros Hne Hld. unfold reassemble.
  apply mapM_ok_map. intros b Hb. apply in_seq in Hb.
  apply reassemble_one_ok with (T := T); [assumption | assumption | lia].
Qed.

Lemma residue_slices_shape (ld : list (tensor3 F)) (B T b L : nat) :
  Forall (shape3 B T Hd) ld -> b < B -> L + 1 <= T ->
  shape3 (length ld) L Hd (residue_slices ld b L).
Proof.
  intros Hld Hb HL. unfold residue_slices. split.
  - now rewrite length_map.
  - apply Forall_map. eapply Forall_impl; [| exact Hld].
    intros layer Hlayer.
    replace L with (Nat.min (1 + L - 1) (T - 1)) at 1 by lia.
    apply slice_shape. apply (shape3_nth Hlayer Hb).
Qed.

End Pipeline.

(** ** Top-k sparsification keeps at most k entries *)

Lemma rows_shape {A B'} (f : list A -> list B') (a b c c' : nat)
      (x : list (list (list A))) :
  (forall r, length r = c -> length (f r) = c') ->
  shape3 a b c x -> shape3 a b c' (map (map f) x).
Proof.
  intros Hf [Hl Hx]. split.
  - now rewrite length_map.
  - apply Forall_map. eapply Forall_impl; [| exact Hx].
    intros m [Hm Hr]. split.
    + now rewrite length_map.
    + apply Forall_map. eapply Forall_impl; [| exact Hr].
      intros r Hlen. now apply Hf.
Qed.

Lemma filter_orb_length {A} (f g : A -> bool) (l : list A) :
  length (filter (fun a => f a || g a) l) <=
  length (filter f l) + length (filter g l).
Proof.
  induction l as [| a l IH]; simpl; [lia |].
  destruct (f a), (g a); simpl; lia.
Qed.

Lemma filter_false_length {A} (l : list A) :
  length (filter (fun _ => false) l) = 0.
Proof. induction l; simpl; auto. Qed.

Lemma filter_fst_eq_length {A} (i start : nat) (v : list A) :
  length (filter (fun p => Nat.eqb (fst p) i) (combine (seq start (length v)) v))
  <= 1.
Proof.
  revert start. induction v as [| a v IH]; intros start; simpl; [lia |].
  destruct (start =? i) eqn:E; simpl.
  - apply Nat.eqb_eq in E. subst i.
    assert (Hz : length (filter (fun p : nat * A => fst p =? start)
                                (combine (seq (S start) (length v)) v)) = 0).
    { rewrite <- (filter_false_length (combine (seq (S start) (length v)) v)).
      f_equal. apply filter_ext_in. intros [j b] Hin. simpl.
      apply in_combine_l, in_seq in Hin. apply Nat.eqb_neq. lia. }
    rewrite Hz. lia.
  - apply IH.
Qed.

(** Among indexed entries, those whose position is listed in [sel] are no
    more than [sel] has elements. *)
Lemma selected_length {A} (sel : list nat) (v : list A) :
  length (filter (fun p => existsb (Nat.eqb (fst p)) sel)
                 (combine (seq 0 (length v)) v)) <= length sel.
Proof.
  induction sel as [| i sel IH]; simpl.
  - now rewrite filter_false_length.
  - etransitivity; [apply filter_orb_length |].
    pose proof (filter_fst_eq_length i 0 v). simpl in *. lia.
Qed.

Section TopKFacts.
Context {F : Type} {SF : Scalar F}.

Lemma top_k_sparsify_row_length (k_value : nat) (v : vec F) :
  length (top_k_sparsify_row k_value v) = length v.
Proof.
  unfold top_k_sparsify_row, indexed.
  rewrite length_map, length_combine, length_seq. lia.
Qed.

Lemma top_k_sparsify_shape (x : tensor3 F) (k_value B T n : nat) :
  shape3 B T n x -> shape3 B T n (top_k_sparsify x k_value).
Proof.
  apply rows_shape. intros r Hr.
  now rewrite top_k_sparsify_row_length.
Qed.

Lemma topk_indices_length (k_value : nat) (v : vec F) :
  length (topk_indices k_value v) <= k_value.
Proof.
  unfold topk_indices. rewrite length_map. apply firstn_le_length.
Qed.

Lemma count_nonzero_select (sel : list nat) (ps : list (nat * F)) :
  fis_zero fzero = true ->
  count_nonzero (map (fun p => if existsb (Nat.eqb (fst p)) sel
                               then snd p else fzero) ps)
  <= length (filter (fun p => existsb (Nat.eqb (fst p)) sel) ps).
Proof.
  intros Hz. unfold count_nonzero.
  induction ps as [| p ps IH]; simpl; [lia |].
  destruct (existsb (Nat.eqb (fst p)) sel); simpl.
  - destruct (fis_zero (snd p)); simpl; lia.
  - rewrite Hz. simpl. exact IH.
Qed.

Lemma top_k_sparsify_row_sparse (k_value : nat) (v : vec F) :
  fis_zero fzero = true ->
  count_nonzero (top_k_sparsify_row k_value v) <= k_value.
Proof.
  intros Hz. unfold top_k_sparsify_row.
  etransitivity; [apply (count_nonzero_select _ _ Hz) |].
  etransitivity; [apply selected_length |].
  apply topk_indices_length.
Qed.

Lemma top_k_sparsify_sparse (x : tensor3 F) (k_value : nat) :
  fis_zero fzero = true -> sparse k_value (top_k_sparsify x k_value).
Proof.
  intros Hz. unfold sparse, top_k_sparsify.
  apply Forall_map, Forall_forall. intros m _.
  apply Forall_map, Forall_forall. intros v _.
  now apply top_k_sparsify_row_sparse.
Qed.

(** Every tensor the layer loop appends is a result of [topK_activation]. *)
Lemma layer_loop_outputs (clt : CLT F) (P : tensor3 F -> Prop)
      (k_value : nat) :
  (forall x, P (topK_activation clt x k_value)) ->
  forall ls n layer_idx x ld,
    layer_loop clt n k_value layer_idx ls x = Ok ld -> Forall P ld.
Proof.
  intros HP. induction ls as [| layer rest IH]; intros n idx x ld;
    cbn [layer_loop].
  - intros E. inversion E. constructor.
  - destruct (n <=? idx); [intros E; inversion E; constructor |].
    destruct (index (b_pre clt) idx) as [b | e]; cbn [rbind];
      [| discriminate].
    destruct (broadcast_last fsub _ b) as [x_l | e]; cbn [rbind];
      [| discriminate].
    destruct (index (encoders clt) idx) as [enc | e]; cbn [rbind];
      [| discriminate].
    destruct (index (b_enc clt) idx) as [b' | e]; cbn [rbind];
      [| discriminate].
    destruct (broadcast_last fadd _ b') as [pre_acts | e]; cbn [rbind];
      [| discriminate].
    destruct (layer_loop clt n k_value (S idx) rest _) as [more | e] eqn:Em;
      cbn [rbind]; [| discriminate].
    intros E. inversion E. subst ld. constructor.
    + apply HP.
    + eapply IH, Em.
Qed.

End TopKFacts.

(** ** The small instance meets the contracts *)

Module ToyFacts.
Import Toy.

Lemma encode_length (s : string) : length (encode s) = String.length s.
Proof.
  unfold encode. rewrite length_map.
  induction s as [| c s IH]; simpl; auto.
Qed.

Lemma max_len_ge (data : list (string * string)) (d : string * string) :
  In d data -> length (encode (snd d)) <= max_len data.
Proof.
  unfold max_len. induction data as [| d' data IH]; simpl; intros Hin.
  - contradiction.
  - destruct Hin as [-> | Hin]; [lia |].
    specialize (IH Hin). lia.
Qed.

Lemma toy_tokens_ok (batch_seqs : list string) :
  exists T,
    shape2 (length batch_seqs) T (toy_batch_converter (protein batch_seqs)) /\
    Forall (fun s => String.length s + 2 <= T) batch_seqs.
Proof.
  exists (max_len (protein batch_seqs) + 2). split.
  - split.
    + unfold toy_batch_converter, protein. now rewrite !length_map.
    + unfold toy_batch_converter. apply Forall_map, Forall_forall.
      intros d Hd. pose proof (max_len_ge _ _ Hd).
      rewrite !length_app, repeat_length. simpl. lia.
  - apply Forall_forall. intros s Hs.
    assert (Hin : In ("protein"%string, s) (protein batch_seqs)).
    { unfold protein. apply in_map_iff. now exists s. }
    pose proof (max_len_ge _ _ Hin) as Hle. simpl in Hle.
    rewrite encode_length in Hle. lia.
Qed.

Lemma toy_embed_ok (toks : tokens) (B T : nat) :
  shape2 B T toks ->
  shape3 B T 2 (map (map (fun t => [Z.of_nat t; (-3)%Z])) toks).
Proof.
  intros [Hl Ht]. split.
  - now rewrite length_map.
  - apply Forall_map. eapply Forall_impl; [| exact Ht].
    intros r Hr. split.
    + now rewrite length_map.
    + apply Forall_map, Forall_forall. reflexivity.
Qed.

Lemma toy_layer_ok (x : tensor3 Z) (m : option mask) (hw : bool) (T B : nat) :
  shape3 T B 2 x -> shape3 T B 2 (toy_layer x m hw).
Proof. apply map3_shape. Qed.

Lemma toy_encoder_ok (x : tensor3 Z) (B T : nat) :
  shape3 B T 2 x -> shape3 B T 4 (toy_encoder x).
Proof.
  apply rows_shape. intros r Hr.
  rewrite length_app, length_map. lia.
Qed.

Ltac each_element tac :=
  repeat (apply Forall_cons; [tac |]); apply Forall_nil.

Lemma toy_ok : collaborators_ok toy_clt toy_esm 2 4.
Proof.
  constructor; simpl.
  - exact toy_tokens_ok.
  - exact toy_embed_ok.
  - each_element ltac:(exact toy_layer_ok).
  - auto.
  - reflexivity.
  - each_element ltac:(reflexivity).
  - reflexivity.
  - each_element ltac:(exact toy_encoder_ok).
  - reflexivity.
  - each_element ltac:(reflexivity).
  - intros x k_value B T. apply top_k_sparsify_shape.
Qed.

Lemma deep_ok : collaborators_ok deep_clt toy_esm 2 4.
Proof.
  constructor; simpl.
  - exact toy_tokens_ok.
  - exact toy_embed_ok.
  - each_element ltac:(exact toy_layer_ok).
  - auto.
  - reflexivity.
  - each_element ltac:(reflexivity).
  - reflexivity.
  - each_element ltac:(exact toy_encoder_ok).
  - reflexivity.
  - each_element ltac:(reflexivity).
  - intros x k_value B T. apply top_k_sparsify_shape.
Qed.

Lemma toy_sample_ok : sample_ok toy_sample.
Proof.
  intros df n shuffle seed Hn. unfold df_len, toy_sample in *. simpl.
  rewrite length_firstn. lia.
Qed.

End ToyFacts.

(** ** Outcome of the reassembler, whatever the collaborators do *)

Lemma mapM_Forall {A B} (f : A -> result B) (Q : B -> Prop) (xs : list A)
      (ys : list B) :
  (forall x y, In x xs -> f x = Ok y -> Q y) ->
  mapM f xs = Ok ys -> Forall Q ys.
Proof.
  revert ys. induction xs as [| x xs IH]; simpl; intros ys HQ E.
  - inversion E. constructor.
  - destruct (f x) as [y | e] eqn:Ey; simpl in E; [| discriminate].
    destruct (mapM f xs) as [ys' | e] eqn:Em; simpl in E; [| discriminate].
    inversion E. constructor.
    + apply (HQ x); [now left | exact Ey].
    + apply IH; [| reflexivity].
      intros x' y' Hin. apply HQ. now right.
Qed.

Lemma stack_inv {F} (ts : list (mat F)) (r : tensor3 F) :
  stack ts = Ok r -> r = ts.
Proof.
  unfold stack. destruct ts as [| t rest]; [discriminate |].
  match goal with |- context [forallb ?f rest] =>
    destruct (forallb f rest); [| discriminate] end.
  intros E. now inversion E.
Qed.

Lemma index_inv {A} (l : list A) (i : nat) (a : A) :
  index l i = Ok a -> In a l.
Proof.
  unfold index. destruct (nth_error l i) eqn:E; [| discriminate].
  intros E'. inversion E'. subst. eapply nth_error_In, E.
Qed.

Lemma get_latents_length {F} {SF : Scalar F} (clt : CLT F)
      (esm_model : EsmModel F) (batch_seqs : list string) (k_value : nat)
      (res : list (tensor3 F)) :
  get_latents_for_batch clt esm_model batch_seqs k_value = Ok res ->
  length res = length batch_seqs.
Proof.
  unfold get_latents_for_batch.
  destruct (extract_layers clt esm_model batch_seqs k_value) as [ld | e];
    cbn [rbind]; [| discriminate].
  unfold reassemble. intros E. apply mapM_length in E.
  now rewrite length_seq in E.
Qed.

Lemma reassemble_rows {F} (P : vec F -> Prop) (ld : list (tensor3 F))
      (batch_seqs : list string) (res : list (tensor3 F)) :
  Forall (Forall (Forall P)) ld ->
  reassemble ld batch_seqs = Ok res ->
  Forall (Forall (Forall P)) res.
Proof.
  intros Hld. unfold reassemble. apply mapM_Forall.
  intros b arr _. unfold reassemble_one.
  destruct (index batch_seqs b) as [s | e]; cbn [rbind]; [| discriminate].
  destruct (mapM _ (seq 0 (length ld))) as [seq_layers | e] eqn:Em;
    cbn [rbind]; [| discriminate].
  intros Est. apply stack_inv in Est. subst arr.
  eapply mapM_Forall; [| exact Em].
  intros l m _. unfold slice_layer.
  destruct (index ld l) as [layer | e] eqn:El; cbn [rbind]; [| discriminate].
  destruct (index layer b) as [r | e] eqn:Er; cbn [rbind]; [| discriminate].
  intros E. inversion E. subst m.
  apply index_inv in El. apply index_inv in Er.
  rewrite Forall_forall in Hld. specialize (Hld layer El).
  rewrite Forall_forall in Hld. specialize (Hld r Er).
  rewrite Forall_forall in *. intros v Hv.
  apply Hld. eapply in_slice, Hv.
Qed.

Lemma layer_loop_unmasked {F} {SF : Scalar F} (clt : CLT F)
      (n k_value : nat)
      (ls : list (tensor3 F -> option mask -> bool -> tensor3 F)) :
  forall layer_idx x,
    layer_loop clt n k_value layer_idx
               (map (fun layer => fun x (_ : option mask) (_ : bool) =>
                                    layer x None false) ls) x =
    layer_loop clt n k_value layer_idx ls x.
Proof.
  induction ls as [| layer rest IH]; intros idx x; cbn [layer_loop map].
  - reflexivity.
  - destruct (n <=? idx); [reflexivity |].
    now rewrite IH.
Qed.

(** ** The archiving loop under the collaborators' contracts *)

Section Archiving.
Context {F : Type} {SF : Scalar F}.
Variable clt : CLT F.
Variable esm_model : EsmModel F.
Variable sample : DataFrame -> nat -> bool -> nat -> DataFrame.
Variables E Hd : nat.
Hypothesis Hok : collaborators_ok clt esm_model E Hd.
Hypothesis Hnl : 0 < Nat.min (num_layers clt) (length (layers esm_model)).

Local Notation n_out :=
  (Nat.min (num_layers clt) (length (layers esm_model))).
Local Notation arrays_for := (arrays_of_shape n_out Hd).

Lemma get_latents_ok (batch_seqs : list string) (k_value : nat) :
  batch_seqs <> [] ->
  exists res,
    get_latents_for_batch clt esm_model batch_seqs k_value = Ok res /\
    arrays_for res batch_seqs.
Proof.
  intros Hne.
  destruct (extract_layers_ok Hok k_value Hne)
    as [ld [T [Eld [Hlen [Hld Hlay]]]]].
  assert (Hldne : ld <> [])
    by (destruct ld; [simpl in Hlen; lia | discriminate]).
  eexists. split.
  - unfold get_latents_for_batch. rewrite Eld. cbn [rbind].
    apply reassemble_ok with (Hd := Hd) (T := T); assumption.
  - unfold arrays_of_shape.
    apply (Forall2_map_seq
             (fun arr s => shape3 n_out (String.length s) Hd arr)
             (fun b s => residue_slices ld b (String.length s))).
    intros b Hb. rewrite <- Hlen.
    eapply residue_slices_shape; [exact Hld | exact Hb |].
    rewrite Forall_forall in Hlay.
    specialize (Hlay (nth b batch_seqs ""%string) (nth_In _ _ Hb)). lia.
Qed.

Lemma collect_latents_ok (bs : list (list string)) :
  Forall (fun b => b <> []) bs ->
  forall acc,
  exists res,
    collect_latents clt esm_model bs acc = Ok (acc ++ res) /\
    arrays_for res (concat bs).
Proof.
  induction 1 as [| batch rest Hb Hrest IH]; intros acc; cbn [collect_latents].
  - exists []. split; [now rewrite app_nil_r | constructor].
  - destruct (get_latents_ok (k clt) Hb) as [r [Er Hr]].
    rewrite Er. cbn [rbind].
    destruct (IH (acc ++ r)) as [res [Eres Hres]].
    exists (r ++ res). split.
    + rewrite Eres. now rewrite app_assoc.
    + simpl. now apply Forall2_app.
Qed.

Lemma batches_nonempty {A} (seqs : list A) :
  exists bs,
    batches batch_size seqs = Ok bs /\
    concat bs = seqs /\ Forall (fun b => b <> []) bs.
Proof.
  destruct (@batches_cover A batch_size seqs) as [bs Hbs];
    [unfold batch_size; lia |].
  destruct Hbs as [Ebs [Hcat Hpos]].
  exists bs. split; [exact Ebs |]. split; [exact Hcat |].
  apply Forall_forall. intros b Hin.
  destruct (In_nth _ _ [] Hin) as [j [Hj Ej]].
  specialize (Hpos j Hj). rewrite Ej in Hpos.
  destruct b; [simpl in Hpos; lia | discriminate].
Qed.

Lemma process_group_ok (output_dir target_id name : string)
      (dataframe : DataFrame) (w : world F) :
  exists acts w',
    process_group clt esm_model output_dir target_id (name, dataframe) w
      = (w', Ok tt) /\
    files w' = (out_file_of output_dir name target_id,
                archive_of acts dataframe) :: files w /\
    arrays_for acts (map Sequence (rows dataframe)).
Proof.
  destruct (batches_nonempty (map Sequence (rows dataframe)))
    as [bs [Ebs [Hcat Hne]]].
  destruct (collect_latents_ok Hne []) as [acts [Eacts Hacts]].
  rewrite Hcat in Hacts. simpl in Eacts.
  exists acts.
  unfold process_group, mbind, print, lift, savez, mret.
  rewrite Ebs. cbn [rbind]. rewrite Eacts.
  destruct acts as [| a acts']; eexists;
    (split; [reflexivity |]); (split; [reflexivity | exact Hacts]).
Qed.

Lemma arrays_for_archive_ok (acts : list (tensor3 F))
      (dataframe : DataFrame) :
  arrays_for acts (map Sequence (rows dataframe)) ->
  archive_ok (archive_of acts dataframe).
Proof.
  intros Hacts. unfold archive_ok, archive_of. cbn [activations entries sequences].
  split; [| split].
  - rewrite (Forall2_length Hacts). now rewrite !length_map.
  - now rewrite !length_map.
  - eapply Forall2_impl; [| exact Hacts].
    intros arr s Hsh. apply (shape3_dim1 Hsh). exact Hnl.
Qed.

(** A target without matches: nothing is written, the skip is printed. *)
Lemma process_target_skip (df : DataFrame) (output_dir : string)
      (n_samples : nat) (target_id : string) (w : world F) :
  df_len (df_filter df (has_target df target_id)) = 0 ->
  exists w',
    process_target clt esm_model sample df output_dir n_samples target_id w
      = (w', Ok tt) /\
    files w' = files w /\
    hd_error (stdout w') = Some (MsgSkipping target_id).
Proof.
  intros Hz. unfold process_target, mbind, print.
  rewrite Hz. cbn [Nat.eqb].
  eexists. split; [reflexivity |]. split; reflexivity.
Qed.

(** A target with matches: the positives archive, then the negatives
    archive, are written from the two samples. *)
Lemma process_target_matched (df : DataFrame) (output_dir : string)
      (n_samples : nat) (target_id : string) (w : world F) :
  let has_id := has_target df target_id in
  let group_in := df_filter df has_id in
  let group_out := df_filter df (map negb has_id) in
  let df_in :=
    sample group_in (Nat.min (df_len group_in) n_samples) true 42 in
  let df_out :=
    sample group_out (Nat.min (df_len group_out) n_samples) true 42 in
  df_len group_in <> 0 ->
  exists acts_in acts_out w',
    process_target clt esm_model sample df output_dir n_samples target_id w
      = (w', Ok tt) /\
    files w' =
      (out_file_of output_dir "negatives" target_id,
       archive_of acts_out df_out) ::
      (out_file_of output_dir "positives" target_id,
       archive_of acts_in df_in) :: files w /\
    arrays_for acts_in (map Sequence (rows df_in)) /\
    arrays_for acts_out (map Sequence (rows df_out)).
Proof.
  intros has_id group_in group_out df_in df_out Hnz.
  unfold process_target.
  fold has_id. fold group_in. fold group_out.
  apply Nat.eqb_neq in Hnz.
  unfold mbind at 1 2 3. unfold print at 1 2 3.
  rewrite Hnz. fold df_in. fold df_out.
  cbn [for_each]. unfold mbind at 1.
  match goal with |- context [process_group _ _ _ _ (_, df_in) ?w0] =>
    destruct (process_group_ok output_dir target_id "positives" df_in w0)
      as [acts_in [w1 [E1 [Hf1 Ha1]]]] end.
  rewrite E1. unfold mbind at 1.
  destruct (process_group_ok output_dir target_id "negatives" df_out w1)
    as [acts_out [w2 [E2 [Hf2 Ha2]]]].
  rewrite E2. unfold mret.
  exists acts_in, acts_out, w2.
  split; [reflexivity |]. split; [| split; assumption].
  rewrite Hf2, Hf1. reflexivity.
Qed.

End Archiving.

(** ** Every archive of a run satisfies the archive invariant *)

Section Invariant.
Context {F : Type} {SF : Scalar F}.
Variable clt : CLT F.
Variable esm_model : EsmModel F.
Variable sample : DataFrame -> nat -> bool -> nat -> DataFrame.
Variables E Hd : nat.
Hypothesis Hok : collaborators_ok clt esm_model E Hd.
Hypothesis Hnl : 0 < Nat.min (num_layers clt) (length (layers esm_model)).

Lemma process_target_archives (df : DataFrame) (output_dir : string)
      (n_samples : nat) (target_id : string) (w : world F) :
  archives_ok w ->
  exists w',
    process_target clt esm_model sample df output_dir n_samples target_id w
      = (w', Ok tt) /\
    archives_ok w'.
Proof.
  intros Hw. unfold archives_ok in *.
  destruct (Nat.eq_dec (df_len (df_filter df (has_target df target_id))) 0)
    as [Hz | Hnz].
  - destruct (process_target_skip clt esm_model sample df output_dir
                n_samples target_id w Hz) as [w' [Ew [Hf _]]].
    exists w'. split; [exact Ew |]. now rewrite Hf.
  - destruct (process_target_matched sample Hok Hnl df output_dir n_samples
                target_id w Hnz)
      as [acts_in [acts_out [w' [Ew [Hf [Hin Hout]]]]]].
    exists w'. split; [exact Ew |]. rewrite Hf. cbn [map snd].
    constructor; [| constructor; [| exact Hw]];
      eapply arrays_for_archive_ok; eassumption.
Qed.

Lemma for_each_target_archives (df : DataFrame) (output_dir : string)
      (n_samples : nat) (targets : list string) :
  forall w,
    archives_ok w ->
    exists w',
      for_each (process_target clt esm_model sample df output_dir n_samples)
               targets w = (w', Ok tt) /\
      archives_ok w'.
Proof.
  induction targets as [| t rest IH]; intros w Hw; cbn [for_each].
  - exists w. split; [reflexivity | exact Hw].
  - destruct (process_target_archives df output_dir n_samples t Hw)
      as [w1 [E1 H1]].
    unfold mbind. rewrite E1. apply IH, H1.
Qed.

End Invariant.

(** ** What a run writes *)

Section Writes.
Context {F : Type} {SF : Scalar F}.
Variable clt : CLT F.
Variable esm_model : EsmModel F.
Variable sample : DataFrame -> nat -> bool -> nat -> DataFrame.
Variables E Hd : nat.
Hypothesis Hok : collaborators_ok clt esm_model E Hd.
Hypothesis Hnl : 0 < Nat.min (num_layers clt) (length (layers esm_model)).

Local Notation n_out :=
  (Nat.min (num_layers clt) (length (layers esm_model))).

Lemma process_group_full (output_dir target_id name : string)
      (dataframe : DataFrame) (w : world F) :
  exists acts w',
    process_group clt esm_model output_dir target_id (name, dataframe) w
      = (w', Ok tt) /\
    files w' = (out_file_of output_dir name target_id,
                archive_of acts dataframe) :: files w /\
    arrays_of_shape n_out Hd acts (map Sequence (rows dataframe)) /\
    (bs <- batches batch_size (map Sequence (rows dataframe)) ;;
     collect_latents clt esm_model bs []) = Ok acts.
Proof.
  destruct (batches_nonempty clt esm_model Hnl
              (map Sequence (rows dataframe)))
    as [bs [Ebs [Hcat Hne]]].
  destruct (collect_latents_ok Hok Hnl Hne []) as [acts [Eacts Hacts]].
  rewrite Hcat in Hacts. simpl in Eacts.
  exists acts.
  unfold process_group, mbind, print, lift, savez, mret.
  rewrite Ebs. cbn [rbind]. rewrite Eacts.
  destruct acts as [| a acts']; eexists;
    (split; [reflexivity |]); (split; [reflexivity |]);
    (split; [exact Hacts | reflexivity]).
Qed.

Lemma group_write (df : DataFrame) (output_dir : string) (n_samples : nat)
      (targets : list string) (target_id name : string) (group : DataFrame)
      (acts : list (tensor3 F)) :
  In target_id targets -> matched df target_id = true ->
  (name = "positives"%string /\
   group = df_filter df (has_target df target_id)) \/
  (name = "negatives"%string /\
   group = df_filter df (map negb (has_target df target_id))) ->
  let dataframe := sample group (Nat.min (df_len group) n_samples) true 42 in
  arrays_of_shape n_out Hd acts (map Sequence (rows dataframe)) ->
  (bs <- batches batch_size (map Sequence (rows dataframe)) ;;
   collect_latents clt esm_model bs []) = Ok acts ->
  write_of_run clt esm_model sample df output_dir n_samples targets
               (out_file_of output_dir name target_id,
                archive_of acts dataframe) /\
  archive_ok (archive_of acts dataframe).
Proof.
  intros Hin Hm Hgroup dataframe Hacts Ecomp. split.
  - exists target_id, name, group.
    split; [exact Hin |]. split; [exact Hm |]. split; [exact Hgroup |].
    cbn [fst snd archive_of entries sequences activations].
    repeat split. exact Ecomp.
  - eapply arrays_for_archive_ok; eassumption.
Qed.

Lemma process_target_full (df : DataFrame) (output_dir : string)
      (n_samples : nat) (targets : list string) (target_id : string)
      (w : world F) :
  In target_id targets ->
  df_len (df_filter df (has_target df target_id)) <> 0 ->
  exists w' f_pos f_neg,
    process_target clt esm_model sample df output_dir n_samples target_id w
      = (w', Ok tt) /\
    files w' = f_neg :: f_pos :: files w /\
    fst f_pos = out_file_of output_dir "positives" target_id /\
    fst f_neg = out_file_of output_dir "negatives" target_id /\
    (write_of_run clt esm_model sample df output_dir n_samples targets f_pos
     /\ archive_ok (snd f_pos)) /\
    (write_of_run clt esm_model sample df output_dir n_samples targets f_neg
     /\ archive_ok (snd f_neg)).
Proof.
  intros Hin Hnz.
  assert (Hm : matched df target_id = true)
    by (unfold matched; apply Nat.eqb_neq in Hnz; rewrite Hnz; reflexivity).
  unfold process_target.
  apply Nat.eqb_neq in Hnz.
  unfold mbind at 1 2 3. unfold print at 1 2 3.
  rewrite Hnz. cbn [for_each]. unfold mbind at 1.
  match goal with |- context [process_group _ _ _ _ (_, ?d) ?w1] =>
    destruct (process_group_full output_dir target_id "positives" d w1)
      as [acts_in [w2 [E1 [Hf1 [Ha1 Ec1]]]]] end.
  rewrite E1. unfold mbind at 1.
  match goal with |- context [process_group _ _ _ _ (_, ?d) w2] =>
    destruct (process_group_full output_dir target_id "negatives" d w2)
      as [acts_out [w3 [E2 [Hf2 [Ha2 Ec2]]]]] end.
  rewrite E2. unfold mret.
  eexists w3, (_, _), (_, _). split; [reflexivity |].
  split; [rewrite Hf2, Hf1; reflexivity |].
  split; [reflexivity |]. split; [reflexivity |]. split.
  - eapply group_write;
      [exact Hin | exact Hm | left; split; reflexivity | exact Ha1
      | exact Ec1].
  - eapply group_write;
      [exact Hin | exact Hm | right; split; reflexivity | exact Ha2
      | exact Ec2].
Qed.

Lemma for_each_target_writes (df : DataFrame) (output_dir : string)
      (n_samples : nat) (targets : list string) :
  forall ts,
    (forall t, In t ts -> In t targets) ->
    forall w0,
    exists w' writes,
      for_each (process_target clt esm_model sample df output_dir n_samples)
               ts w0 = (w', Ok tt) /\
      files w' = writes ++ files w0 /\
      map fst writes = rev (written_names df output_dir ts) /\
      Forall (fun f =>
                write_of_run clt esm_model sample df output_dir n_samples
                             targets f /\
                archive_ok (snd f)) writes.
Proof.
  induction ts as [| t rest IH]; intros Hts w0; cbn [for_each].
  - exists w0, []. repeat split. constructor.
  - assert (Hrest : forall t', In t' rest -> In t' targets)
      by (intros t' Ht'; apply Hts; now right).
    unfold mbind, written_names. cbn [filter].
    destruct (Nat.eq_dec (df_len (df_filter df (has_target df t))) 0)
      as [Hz | Hnz].
    + destruct (process_target_skip clt esm_model sample df output_dir
                  n_samples t w0 Hz) as [w1 [E1 [Hf1 _]]].
      rewrite E1. destruct (IH Hrest w1) as [w' [writes [Ew [Hf [Hn Hw]]]]].
      exists w', writes. split; [exact Ew |].
      split; [now rewrite Hf, Hf1 |].
      assert (Hm : matched df t = false)
        by (unfold matched; rewrite Hz; reflexivity).
      rewrite Hm. split; [exact Hn | exact Hw].
    + assert (Hm : matched df t = true)
        by (unfold matched; apply Nat.eqb_neq in Hnz; rewrite Hnz;
            reflexivity).
      rewrite Hm. cbn [flat_map app].
      destruct (process_target_full df output_dir n_samples targets t w0)
        as [w1 [f_pos [f_neg [E1 [Hf1 [Hp [Hn1 [Hwp Hwn]]]]]]]];
        [apply Hts; now left | exact Hnz |].
      rewrite E1.
      destruct (IH Hrest w1) as [w' [writes [Ew [Hf [Hn Hw]]]]].
      exists w', (writes ++ [f_neg; f_pos]). split; [exact Ew |].
      split; [rewrite Hf, Hf1, <- app_assoc; reflexivity |].
      split.
      * rewrite map_app, Hn. cbn [map rev]. rewrite Hp, Hn1.
        unfold written_names. rewrite <- !app_assoc. reflexivity.
      * apply Forall_app. split; [exact Hw |].
        constructor; [exact Hwn | constructor; [exact Hwp | constructor]].
Qed.

End Writes.

Lemma read_file_app_notin {F} (writes fs : list (string * archive F))
      (name : string) :
  ~ In name (map fst writes) ->
  read_file (writes ++ fs) name = read_file fs name.
Proof.
  induction writes as [| [n a] writes IH]; simpl; intros Hnot;
    [reflexivity |].
  destruct (String.eqb n name) eqn:En.
  - apply String.eqb_eq in En. exfalso. apply Hnot. now left.
  - apply IH. intros Hin. apply Hnot. now right.
Qed.

Lemma read_file_app_in {F} (writes fs : list (string * archive F))
      (name : string) :
  In name (map fst writes) ->
  exists a, read_file (writes ++ fs) name = Some a /\ In (name, a) writes.
Proof.
  induction writes as [| [n a] writes IH]; simpl; intros Hin;
    [contradiction |].
  destruct (String.eqb n name) eqn:En.
  - apply String.eqb_eq in En. subst n. exists a. split; [reflexivity |].
    now left.
  - destruct Hin as [Heq | Hin];
      [subst n; rewrite String.eqb_refl in En; discriminate |].
    destruct (IH Hin) as [a' [Ea' Hin']]. exists a'.
    split; [exact Ea' | now right].
Qed.

Lemma out_file_of_inj (output_dir n1 n2 t1 t2 : string) :
  In n1 ["positives"; "negatives"]%string ->
  In n2 ["positives"; "negatives"]%string ->
  out_file_of output_dir n1 t1 = out_file_of output_dir n2 t2 ->
  n1 = n2 /\ t1 = t2.
Proof.
  intros H1 H2 E. unfold out_file_of, path_join in E.
  assert (E' : (n1 ++ "_" ++ t1 ++ ".npz")%string
               = (n2 ++ "_" ++ t2 ++ ".npz")%string).
  { destruct ((String.length output_dir =? 0) || ends_with_slash output_dir).
    - clear - E. induction output_dir as [| c d IH]; simpl in E;
        [exact E | injection E as E; now apply IH].
    - assert (E2 : ("/" ++ n1 ++ "_" ++ t1 ++ ".npz")%string
                   = ("/" ++ n2 ++ "_" ++ t2 ++ ".npz")%string).
      { clear - E. induction output_dir as [| c d IH]; simpl in E;
          [exact E | injection E as E; now apply IH]. }
      simpl in E2. now injection E2 as E2. }
  assert (Htail : forall a b : string,
             (a ++ ".npz")%string = (b ++ ".npz")%string -> a = b).
  { induction a as [| c a IH]; intros [| c' b] Eab.
    - reflexivity.
    - apply (f_equal String.length) in Eab. simpl in Eab.
      assert (Hl : forall x y : string,
                 String.length (x ++ y) = String.length x + String.length y)
        by (induction x; simpl; intros; [reflexivity | now f_equal]).
      rewrite Hl in Eab. simpl in Eab. lia.
    - apply (f_equal String.length) in Eab. simpl in Eab.
      assert (Hl : forall x y : string,
                 String.length (x ++ y) = String.length x + String.length y)
        by (induction x; simpl; intros; [reflexivity | now f_equal]).
      rewrite Hl in Eab. simpl in Eab. lia.
    - simpl in Eab. injection Eab as Ec Eab. subst c'. f_equal.
      now apply IH. }
  simpl in H1, H2.
  destruct H1 as [<- | [<- | []]], H2 as [<- | [<- | []]];
    simpl in E'; try discriminate;
    (split; [reflexivity |]);
    injection E' as E'; now apply Htail.
Qed.

Lemma written_names_In (df : DataFrame) (output_dir : string)
      (targets : list string) (name : string) :
  In name (written_names df output_dir targets) ->
  exists t n, In t targets /\ In n ["positives"; "negatives"]%string /\
              name = out_file_of output_dir n t.
Proof.
  unfold written_names. intros Hin. apply in_flat_map in Hin.
  destruct Hin as [t [Ht Hn]]. apply filter_In in Ht. destruct Ht as [Ht _].
  destruct Hn as [<- | [<- | []]].
  - exists t, "positives"%string. simpl. auto.
  - exists t, "negatives"%string. simpl. auto.
Qed.

Lemma written_names_NoDup (df : DataFrame) (output_dir : string)
      (targets : list string) :
  NoDup targets -> NoDup (written_names df output_dir targets).
Proof.
  induction 1 as [| t rest Hnotin Hnd IH]; [constructor |].
  unfold written_names in *. cbn [filter].
  destruct (matched df t); [| exact IH].
  cbn [flat_map app].
  assert (Hfresh : forall n, In n ["positives"; "negatives"]%string ->
            ~ In (out_file_of output_dir n t)
                 (flat_map (fun t0 => [out_file_of output_dir "positives" t0;
                                       out_file_of output_dir "negatives" t0])
                           (filter (matched df) rest))).
  { intros n Hn Hin.
    destruct (@written_names_In df output_dir rest _ Hin)
      as [t' [n' [Ht' [Hn' Heq]]]].
    destruct (@out_file_of_inj output_dir n n' t t' Hn Hn' Heq) as [_ ->].
    contradiction. }
  constructor; [| constructor; [| exact IH]].
  - intros [Heq | Hin].
    + destruct (@out_file_of_inj output_dir "negatives" "positives" t t)
        as [Hbad _]; [simpl; auto | simpl; auto | exact Heq |].
      discriminate.
    + apply (Hfresh "positives"%string); [simpl; auto | exact Hin].
  - apply (Hfresh "negatives"%string). simpl. auto.
Qed.

(** * Specified properties *)

(** C1.  A sequence of residue length L processed with [n_layers] layers
    (the length of [layers_data], at least one) and hidden dimension [Hd]:
    its reassembled array is the stack of the slices [1, L+1) of its row in
    every layer tensor, and has shape (n_layers, L, Hd), not
    (n_layers, L+1, Hd) nor (n_layers, L+2, Hd). *)
Theorem reassembled_shape {F} {SF : Scalar F} (clt : CLT F)
        (esm_model : EsmModel F) (E Hd : nat) (batch_seqs : list string)
        (k_value : nat) :
  collaborators_ok clt esm_model E Hd ->
  batch_seqs <> [] ->
  0 < Nat.min (num_layers clt) (length (layers esm_model)) ->
  exists layers_data res,
    extract_layers clt esm_model batch_seqs k_value = Ok layers_data /\
    get_latents_for_batch clt esm_model batch_seqs k_value = Ok res /\
    length layers_data = Nat.min (num_layers clt) (length (layers esm_model)) /\
    forall b, b < length batch_seqs ->
      let L := String.length (nth b batch_seqs ""%string) in
      let arr := nth b res [] in
      arr = residue_slices layers_data b L /\
      shape3 (length layers_data) L Hd arr /\
      dim1 arr = L /\
      ~ shape3 (length layers_data) (L + 1) Hd arr /\
      ~ shape3 (length layers_data) (L + 2) Hd arr.
Proof.
  intros Hok Hne Hnl.
  destruct (extract_layers_ok Hok k_value Hne) as [ld [T [Eld [Hlen [Hld Hlay]]]]].
  assert (Hldne : ld <> []) by (destruct ld; [simpl in Hlen; lia | discriminate]).
  exists ld. eexists. split; [exact Eld |]. split.
  { unfold get_latents_for_batch. rewrite Eld. cbn [rbind].
    apply reassemble_ok with (Hd := Hd) (T := T); assumption. }
  split; [exact Hlen |].
  intros b Hb L arr. subst arr. rewrite nth_map_seq by exact Hb. fold L.
  assert (HL : L + 1 <= T).
  { rewrite Forall_forall in Hlay.
    specialize (Hlay (nth b batch_seqs ""%string) (nth_In _ _ Hb)).
    subst L. lia. }
  assert (Hsh : shape3 (length ld) L Hd (residue_slices ld b L))
    by (eapply residue_slices_shape; eassumption).
  assert (Hd1 : dim1 (residue_slices ld b L) = L)
    by (apply (shape3_dim1 Hsh); lia).
  repeat split; try apply Hsh; try exact Hd1.
  - intros Hbad. apply shape3_dim1 in Hbad; lia.
  - intros Hbad. apply shape3_dim1 in Hbad; lia.
Qed.

(** The small instance on a batch of two sequences of lengths 3 and 5. *)
Lemma reassembled_shape_witness :
  exists layers_data res,
    extract_layers Toy.toy_clt Toy.toy_esm ["MKV"; "ACDEF"]%string 2
      = Ok layers_data /\
    get_latents_for_batch Toy.toy_clt Toy.toy_esm ["MKV"; "ACDEF"]%string 2
      = Ok res /\
    length layers_data = 2 /\
    forall b, b < 2 ->
      let L := String.length (nth b ["MKV"; "ACDEF"]%string ""%string) in
      let arr := nth b res [] in
      arr = residue_slices layers_data b L /\
      shape3 (length layers_data) L 4 arr /\
      dim1 arr = L /\
      ~ shape3 (length layers_data) (L + 1) 4 arr /\
      ~ shape3 (length layers_data) (L + 2) 4 arr.
Proof.
  apply (@reassembled_shape Z Scalar_Z Toy.toy_clt Toy.toy_esm 2 4
           ["MKV"; "ACDEF"]%string 2 ToyFacts.toy_ok).
  - discriminate.
  - simpl. lia.
Defined.

(** C5.  [get_latents_for_batch] returns one array per input sequence, in
    the order of the batch: the result is as long as the batch, and its
    entry [b] is built from row [b] of the layer tensors and the length of
    sequence [b]. *)
Theorem one_array_per_sequence {F} {SF : Scalar F} (clt : CLT F)
        (esm_model : EsmModel F) (E Hd : nat) (batch_seqs : list string)
        (k_value : nat) :
  collaborators_ok clt esm_model E Hd ->
  batch_seqs <> [] ->
  0 < Nat.min (num_layers clt) (length (layers esm_model)) ->
  exists layers_data res,
    extract_layers clt esm_model batch_seqs k_value = Ok layers_data /\
    get_latents_for_batch clt esm_model batch_seqs k_value = Ok res /\
    length res = length batch_seqs /\
    forall b, b < length batch_seqs ->
      nth b res [] =
      residue_slices layers_data b
                     (String.length (nth b batch_seqs ""%string)).
Proof.
  intros Hok Hne Hnl.
  destruct (extract_layers_ok Hok k_value Hne) as [ld [T [Eld [Hlen [Hld _]]]]].
  assert (Hldne : ld <> []) by (destruct ld; [simpl in Hlen; lia | discriminate]).
  assert (Eres : get_latents_for_batch clt esm_model batch_seqs k_value =
                 Ok (map (fun b => residue_slices ld b
                                     (String.length (nth b batch_seqs ""%string)))
                         (seq 0 (length batch_seqs)))).
  { unfold get_latents_for_batch. rewrite Eld. cbn [rbind].
    apply reassemble_ok with (Hd := Hd) (T := T); assumption. }
  exists ld. eexists. split; [exact Eld |]. split; [exact Eres |]. split.
  - now rewrite length_map, length_seq.
  - intros b Hb. now rewrite nth_map_seq.
Qed.

Lemma one_array_per_sequence_witness :
  exists layers_data res,
    extract_layers Toy.toy_clt Toy.toy_esm ["MKV"; "ACDEF"; "GH"]%string 2
      = Ok layers_data /\
    get_latents_for_batch Toy.toy_clt Toy.toy_esm
                          ["MKV"; "ACDEF"; "GH"]%string 2 = Ok res /\
    length res = 3 /\
    forall b, b < 3 ->
      nth b res [] =
      residue_slices layers_data b
        (String.length (nth b ["MKV"; "ACDEF"; "GH"]%string ""%string)).
Proof.
  apply (@one_array_per_sequence Z Scalar_Z Toy.toy_clt Toy.toy_esm 2 4
           ["MKV"; "ACDEF"; "GH"]%string 2 ToyFacts.toy_ok).
  - discriminate.
  - simpl. lia.
Defined.

(** C6.  The layer loop runs over the encoder's layers and breaks once
    [layer_idx] reaches [n_layers]: it returns without an exception, hence
    without an out-of-range access, a list of min(n_layers, encoder layer
    count) tensors; when [n_layers] exceeds the encoder's layer count that
    is the encoder's layer count. *)
Theorem extraction_stops_at_encoder_depth {F} {SF : Scalar F} (clt : CLT F)
        (esm_model : EsmModel F) (E Hd : nat) (batch_seqs : list string)
        (k_value : nat) :
  collaborators_ok clt esm_model E Hd ->
  batch_seqs <> [] ->
  exists layers_data,
    extract_layers clt esm_model batch_seqs k_value = Ok layers_data /\
    length layers_data =
      Nat.min (num_layers clt) (length (layers esm_model)) /\
    (length (layers esm_model) < num_layers clt ->
     length layers_data = length (layers esm_model)).
Proof.
  intros Hok Hne.
  destruct (extract_layers_ok Hok k_value Hne) as [ld [T [Eld [Hlen _]]]].
  exists ld. split; [exact Eld |]. split; [exact Hlen |]. lia.
Qed.

(** A transcoder of five layers on an encoder of three. *)
Lemma extraction_stops_at_encoder_depth_witness :
  exists layers_data,
    extract_layers Toy.deep_clt Toy.toy_esm ["MK"]%string 2 = Ok layers_data /\
    length layers_data = Nat.min 5 3 /\
    (3 < 5 -> length layers_data = 3).
Proof.
  apply (@extraction_stops_at_encoder_depth Z Scalar_Z Toy.deep_clt
           Toy.toy_esm 2 4 ["MK"]%string 2 ToyFacts.deep_ok).
  discriminate.
Defined.

(** C3.  With the transcoder's activation being top-k sparsification, every
    vector it produces has at most k non-zero entries: every token position
    of every batch element of every layer tensor, and so every position of
    every reassembled array. *)
Theorem latents_at_most_k_nonzero {F} {SF : Scalar F} (clt : CLT F)
        (esm_model : EsmModel F) (batch_seqs : list string) (k_value : nat) :
  fis_zero fzero = true ->
  topK_activation clt = top_k_sparsify ->
  (forall v, count_nonzero (top_k_sparsify_row k_value v) <= k_value) /\
  (forall layers_data,
      extract_layers clt esm_model batch_seqs k_value = Ok layers_data ->
      Forall (sparse k_value) layers_data) /\
  (forall res,
      get_latents_for_batch clt esm_model batch_seqs k_value = Ok res ->
      Forall (sparse k_value) res).
Proof.
  intros Hz Htop.
  assert (Hext : forall ld,
             extract_layers clt esm_model batch_seqs k_value = Ok ld ->
             Forall (sparse k_value) ld).
  { intros ld. unfold extract_layers. apply layer_loop_outputs.
    intros x. rewrite Htop. now apply top_k_sparsify_sparse. }
  split; [| split].
  - intros v. now apply top_k_sparsify_row_sparse.
  - exact Hext.
  - intros res. unfold get_latents_for_batch.
    destruct (extract_layers clt esm_model batch_seqs k_value) as [ld | e];
      cbn [rbind]; [| discriminate].
    apply reassemble_rows. apply Hext. reflexivity.
Qed.

Lemma latents_at_most_k_nonzero_witness :
  (forall v : list Z, count_nonzero (top_k_sparsify_row 2 v) <= 2) /\
  (forall layers_data,
      extract_layers Toy.toy_clt Toy.toy_esm ["MKV"; "ACDEF"]%string 2
        = Ok layers_data ->
      Forall (sparse 2) layers_data) /\
  (forall res,
      get_latents_for_batch Toy.toy_clt Toy.toy_esm ["MKV"; "ACDEF"]%string 2
        = Ok res ->
      Forall (sparse 2) res).
Proof.
  apply (@latents_at_most_k_nonzero Z Scalar_Z Toy.toy_clt Toy.toy_esm
           ["MKV"; "ACDEF"]%string 2); reflexivity.
Defined.

(** C8.  Every encoder layer is called with no padding mask: the result is
    that of the encoder whose layers ignore the mask argument, and it does
    not depend on the padding index from which the mask is computed. *)
Theorem layers_run_without_mask {F} {SF : Scalar F} (clt : CLT F)
        (esm_model : EsmModel F) (batch_seqs : list string)
        (k_value p : nat) :
  get_latents_for_batch clt (unmasked esm_model) batch_seqs k_value =
  get_latents_for_batch clt esm_model batch_seqs k_value /\
  get_latents_for_batch clt (with_padding_idx esm_model p) batch_seqs k_value =
  get_latents_for_batch clt esm_model batch_seqs k_value.
Proof.
  split.
  - unfold get_latents_for_batch, extract_layers, unmasked. cbn [layers
      batch_converter embed_scale embed_tokens padding_idx].
    now rewrite layer_loop_unmasked.
  - reflexivity.
Qed.

(** A layer of the small instance does depend on its mask argument. *)
Example toy_layer_mask_sensitive :
  Toy.toy_layer [[[5%Z]]] (Some [[true]]) false <>
  Toy.toy_layer [[[5%Z]]] None false.
Proof. discriminate. Qed.

(** C2.  Every archive a run writes is the archive of one group of one
    matched target: its [entries] and its [sequences] are the Entry and the
    Sequence column of the sampled frame, so [entries[i]] and [sequences[i]]
    come from row i of the sample, in the order of the sample, and its
    [activations] are the latents computed from its [sequences], batch after
    batch in that order.  The three fields have one length and
    [activations[i].shape[1]] is [len(sequences[i])] for every i.  A run
    started in a world whose archives have that property ends in such a
    world, and ends normally when the data frame has the family column. *)
Theorem archives_parallel {F} {SF : Scalar F} (clt : CLT F)
        (esm_model : EsmModel F)
        (sample : DataFrame -> nat -> bool -> nat -> DataFrame)
        (E Hd : nat) (targets : list string) (df : DataFrame)
        (parquet_path output_dir : string) (n_samples : nat) (w : world F) :
  collaborators_ok clt esm_model E Hd ->
  0 < Nat.min (num_layers clt) (length (layers esm_model)) ->
  archives_ok w ->
  let run := main_on clt esm_model sample targets df parquet_path output_dir
                     n_samples w in
  archives_ok (fst run) /\
  (In "InterPro"%string (columns df) -> snd run = Ok tt) /\
  exists writes,
    files (fst run) = writes ++ files w /\
    Forall (fun f =>
              write_of_run clt esm_model sample df output_dir n_samples
                           targets f /\
              archive_ok (snd f)) writes.
Proof.
  intros Hok Hnl Hw run.
  destruct (existsb (String.eqb "InterPro") (columns df)) eqn:Hcol.
  - assert (Hrun : exists w' writes,
               run = (w', Ok tt) /\ files w' = writes ++ files w /\
               Forall (fun f =>
                         write_of_run clt esm_model sample df output_dir
                                      n_samples targets f /\
                         archive_ok (snd f)) writes).
    { subst run. unfold main_on, mbind, print. rewrite Hcol. cbn [negb].
      match goal with |- context [for_each _ targets ?w0] =>
        destruct (for_each_target_writes sample Hok Hnl df output_dir
                    n_samples targets targets (fun t Ht => Ht) w0)
          as [w' [writes [Ew [Hf [_ Hwr]]]]] end.
      exists w', writes. split; [exact Ew |]. split; [exact Hf | exact Hwr]. }
    destruct Hrun as [w' [writes [Erun [Hf Hwr]]]]. rewrite Erun.
    cbn [fst snd]. split; [| split; [reflexivity |]].
    + unfold archives_ok in *. rewrite Hf, map_app. apply Forall_app.
      split; [| exact Hw].
      apply Forall_map. eapply Forall_impl; [| exact Hwr].
      intros f [_ Hf']. exact Hf'.
    + exists writes. split; [exact Hf | exact Hwr].
  - assert (Hrun : run = ({| files := files w;
                             stdout := MsgLoading parquet_path :: stdout w |},
                          Err ValueError)).
    { subst run. unfold main_on, mbind, print, lift. rewrite Hcol.
      reflexivity. }
    rewrite Hrun. cbn [fst snd files]. split; [exact Hw |]. split.
    + intros Hin. exfalso.
      assert (Hex : existsb (String.eqb "InterPro") (columns df) = true).
      { apply existsb_exists. exists "InterPro"%string.
        split; [exact Hin | apply String.eqb_refl]. }
      congruence.
    + exists []. split; [reflexivity | constructor].
Qed.

Lemma archives_parallel_witness :
  let run := main Toy.toy_clt Toy.toy_esm Toy.toy_sample Toy.toy_df
                  "swissprot.parquet" "out" 50 empty_world in
  archives_ok (fst run) /\
  (In "InterPro"%string (columns Toy.toy_df) -> snd run = Ok tt) /\
  exists writes,
    files (fst run) = writes ++ files empty_world /\
    Forall (fun f =>
              write_of_run Toy.toy_clt Toy.toy_esm Toy.toy_sample Toy.toy_df
                           "out" 50 target_ids f /\
              archive_ok (snd f)) writes.
Proof.
  apply (@archives_parallel Z Scalar_Z Toy.toy_clt Toy.toy_esm Toy.toy_sample
           2 4 target_ids Toy.toy_df "swissprot.parquet" "out" 50 empty_world
           ToyFacts.toy_ok).
  - simpl. lia.
  - constructor.
Defined.

(** C7.  A target family without a matching sequence: its iteration ends
    normally, writes no archive and prints the skip, and the loop goes on
    with the remaining targets. *)
Theorem zero_match_target_skipped {F} {SF : Scalar F} (clt : CLT F)
        (esm_model : EsmModel F)
        (sample : DataFrame -> nat -> bool -> nat -> DataFrame)
        (df : DataFrame) (output_dir : string) (n_samples : nat)
        (target_id : string) (rest : list string) (w : world F) :
  df_len (df_filter df (has_target df target_id)) = 0 ->
  exists w',
    process_target clt esm_model sample df output_dir n_samples target_id w
      = (w', Ok tt) /\
    files w' = files w /\
    hd_error (stdout w') = Some (MsgSkipping target_id) /\
    for_each (process_target clt esm_model sample df output_dir n_samples)
             (target_id :: rest) w =
    for_each (process_target clt esm_model sample df output_dir n_samples)
             rest w'.
Proof.
  intros Hz.
  destruct (process_target_skip clt esm_model sample df output_dir n_samples
              target_id w Hz) as [w' [Ew [Hf Hs]]].
  exists w'. split; [exact Ew |]. split; [exact Hf |]. split; [exact Hs |].
  cbn [for_each]. unfold mbind. now rewrite Ew.
Qed.

(** No row of the small data frame belongs to IPR011584. *)
Lemma zero_match_target_skipped_witness :
  exists w',
    process_target Toy.toy_clt Toy.toy_esm Toy.toy_sample Toy.toy_df "out" 50
                   "IPR011584" empty_world = (w', Ok tt) /\
    files w' = files empty_world /\
    hd_error (stdout w') = Some (MsgSkipping "IPR011584") /\
    for_each (process_target Toy.toy_clt Toy.toy_esm Toy.toy_sample
                             Toy.toy_df "out" 50)
             ["IPR011584"; "IPR000786"]%string empty_world =
    for_each (process_target Toy.toy_clt Toy.toy_esm Toy.toy_sample
                             Toy.toy_df "out" 50)
             ["IPR000786"%string] w'.
Proof.
  apply (@zero_match_target_skipped Z Scalar_Z Toy.toy_clt Toy.toy_esm
           Toy.toy_sample Toy.toy_df "out" 50 "IPR011584"
           ["IPR000786"%string] empty_world).
  reflexivity.
Defined.

(** C9 as stated fails on a target without matches: the small data frame has
    three rows outside IPR011584, so min(3, 50) = 3 sequences would be
    archived for its negatives group, but the target is skipped and no
    archive is written. *)
Lemma sampled_count_counterexample :
  let df := Toy.toy_df in
  let target_id := "IPR011584"%string in
  let group_out := df_filter df (map negb (has_target df target_id)) in
  let w' := fst (process_target Toy.toy_clt Toy.toy_esm Toy.toy_sample df
                                "out" 50 target_id empty_world) in
  Nat.min (df_len group_out) 50 = 3 /\
  files w' = [] /\
  ~ (exists neg,
        In (out_file_of "out" "negatives" target_id, neg) (files w') /\
        length (sequences neg) = Nat.min (df_len group_out) 50).
Proof.
  split; [reflexivity |]. split; [reflexivity |].
  intros [neg [Hin _]]. exact Hin.
Qed.

(** C9, amended.  For a target family with at least one matching sequence,
    each of its two archives holds min(number of rows in the group,
    n_samples) sequences, with as many arrays and entries: a group with
    fewer rows than the sample count is taken whole. *)
Theorem sampled_count_of_matched_target {F} {SF : Scalar F} (clt : CLT F)
        (esm_model : EsmModel F)
        (sample : DataFrame -> nat -> bool -> nat -> DataFrame)
        (E Hd : nat) (df : DataFrame) (output_dir : string)
        (n_samples : nat) (target_id : string) (w : world F) :
  let group_in := df_filter df (has_target df target_id) in
  let group_out := df_filter df (map negb (has_target df target_id)) in
  collaborators_ok clt esm_model E Hd ->
  sample_ok sample ->
  0 < Nat.min (num_layers clt) (length (layers esm_model)) ->
  df_len group_in <> 0 ->
  exists pos neg w',
    process_target clt esm_model sample df output_dir n_samples target_id w
      = (w', Ok tt) /\
    files w' = (out_file_of output_dir "negatives" target_id, neg) ::
               (out_file_of output_dir "positives" target_id, pos) ::
               files w /\
    length (sequences pos) = Nat.min (df_len group_in) n_samples /\
    length (activations pos) = Nat.min (df_len group_in) n_samples /\
    length (entries pos) = Nat.min (df_len group_in) n_samples /\
    length (sequences neg) = Nat.min (df_len group_out) n_samples /\
    length (activations neg) = Nat.min (df_len group_out) n_samples /\
    length (entries neg) = Nat.min (df_len group_out) n_samples.
Proof.
  intros group_in group_out Hok Hs Hnl Hnz.
  destruct (process_target_matched sample Hok Hnl df output_dir n_samples
              target_id w Hnz)
    as [acts_in [acts_out [w' [Ew [Hf [Hin Hout]]]]]].
  fold group_in in Hf, Hin. fold group_out in Hf, Hout.
  assert (Lin : df_len (sample group_in (Nat.min (df_len group_in) n_samples)
                               true 42) = Nat.min (df_len group_in) n_samples)
    by (apply Hs; lia).
  assert (Lout : df_len (sample group_out
                                (Nat.min (df_len group_out) n_samples)
                                true 42) = Nat.min (df_len group_out) n_samples)
    by (apply Hs; lia).
  unfold df_len in Lin at 1. unfold df_len in Lout at 1.
  apply Forall2_length in Hin, Hout. rewrite length_map in Hin, Hout.
  eexists. eexists. exists w'.
  split; [exact Ew |]. split; [exact Hf |].
  unfold archive_of. cbn [sequences activations entries].
  rewrite !length_map. repeat split; congruence.
Qed.

Lemma sampled_count_of_matched_target_witness :
  let group_in := df_filter Toy.toy_df (has_target Toy.toy_df "IPR000786") in
  let group_out :=
    df_filter Toy.toy_df (map negb (has_target Toy.toy_df "IPR000786")) in
  exists pos neg w',
    process_target Toy.toy_clt Toy.toy_esm Toy.toy_sample Toy.toy_df "out" 1
                   "IPR000786" empty_world = (w', Ok tt) /\
    files w' = (out_file_of "out" "negatives" "IPR000786", neg) ::
               (out_file_of "out" "positives" "IPR000786", pos) ::
               files empty_world /\
    length (sequences pos) = Nat.min (df_len group_in) 1 /\
    length (activations pos) = Nat.min (df_len group_in) 1 /\
    length (entries pos) = Nat.min (df_len group_in) 1 /\
    length (sequences neg) = Nat.min (df_len group_out) 1 /\
    length (activations neg) = Nat.min (df_len group_out) 1 /\
    length (entries neg) = Nat.min (df_len group_out) 1.
Proof.
  apply (@sampled_count_of_matched_target Z Scalar_Z Toy.toy_clt Toy.toy_esm
           Toy.toy_sample 2 4 Toy.toy_df "out" 1 "IPR000786" empty_world
           ToyFacts.toy_ok ToyFacts.toy_sample_ok).
  - simpl. lia.
  - discriminate.
Defined.

(** C10.  Only the positives group decides the skip: for a target family
    with at least one matching sequence the positives archive and then the
    negatives archive are written, and when the negatives group is empty its
    archive has empty [activations], [entries] and [sequences]. *)
Theorem both_archives_written {F} {SF : Scalar F} (clt : CLT F)
        (esm_model : EsmModel F)
        (sample : DataFrame -> nat -> bool -> nat -> DataFrame)
        (E Hd : nat) (df : DataFrame) (output_dir : string)
        (n_samples : nat) (target_id : string) (w : world F) :
  let group_in := df_filter df (has_target df target_id) in
  let group_out := df_filter df (map negb (has_target df target_id)) in
  collaborators_ok clt esm_model E Hd ->
  sample_ok sample ->
  0 < Nat.min (num_layers clt) (length (layers esm_model)) ->
  df_len group_in <> 0 ->
  exists pos neg w',
    process_target clt esm_model sample df output_dir n_samples target_id w
      = (w', Ok tt) /\
    files w' = (out_file_of output_dir "negatives" target_id, neg) ::
               (out_file_of output_dir "positives" target_id, pos) ::
               files w /\
    (df_len group_out = 0 ->
     neg = {| activations := []; entries := []; sequences := [] |}).
Proof.
  intros group_in group_out Hok Hs Hnl Hnz.
  destruct (process_target_matched sample Hok Hnl df output_dir n_samples
              target_id w Hnz)
    as [acts_in [acts_out [w' [Ew [Hf [Hin Hout]]]]]].
  fold group_in in Hf, Hin. fold group_out in Hf, Hout.
  eexists. eexists. exists w'.
  split; [exact Ew |]. split; [exact Hf |].
  intros Hempty.
  assert (Lout : df_len (sample group_out
                                (Nat.min (df_len group_out) n_samples)
                                true 42) = Nat.min (df_len group_out) n_samples)
    by (apply Hs; lia).
  rewrite Hempty in Lout. cbn [Nat.min] in Lout.
  unfold df_len in Lout at 1. apply length_zero_iff_nil in Lout.
  rewrite Hempty in Hout. cbn [Nat.min] in Hout.
  unfold archive_of. rewrite Hempty. cbn [Nat.min].
  rewrite Lout in *. cbn [map] in *.
  inversion Hout. reflexivity.
Qed.

(** Every row of the data frame is a member: the negatives group is empty. *)
Lemma both_archives_written_witness :
  let group_in :=
    df_filter Toy.members_df (has_target Toy.members_df "IPR000786") in
  let group_out :=
    df_filter Toy.members_df
              (map negb (has_target Toy.members_df "IPR000786")) in
  exists pos neg w',
    process_target Toy.toy_clt Toy.toy_esm Toy.toy_sample Toy.members_df
                   "out" 50 "IPR000786" empty_world = (w', Ok tt) /\
    files w' = (out_file_of "out" "negatives" "IPR000786", neg) ::
               (out_file_of "out" "positives" "IPR000786", pos) ::
               files empty_world /\
    (df_len group_out = 0 ->
     neg = {| activations := []; entries := []; sequences := [] |}).
Proof.
  apply (@both_archives_written Z Scalar_Z Toy.toy_clt Toy.toy_esm
           Toy.toy_sample 2 4 Toy.members_df "out" 50 "IPR000786" empty_world
           ToyFacts.toy_ok ToyFacts.toy_sample_ok).
  - simpl. lia.
  - discriminate.
Defined.

(** The scenario of three sequences of lengths 5, 9 and 5 with batch size 2,
    two layers, hidden dimension 4 and k = 2: two batches of sizes 2 and 1,
    and three arrays of shapes (2,5,4), (2,9,4) and (2,5,4). *)
Example scenario_three_sequences :
  let seqs := ["AAAAA"; "CCCCCCCCC"; "DDDDD"]%string in
  option_map (map (@length string))
             (match batches 2 seqs with Ok bs => Some bs | Err _ => None end)
    = Some [2; 1] /\
  (bs <- batches 2 seqs ;;
   acts <- collect_latents Toy.toy_clt Toy.toy_esm bs [] ;;
   Ok (map (@shape_of Z) acts))
    = Ok [(2, 5, 4); (2, 9, 4); (2, 5, 4)].
Proof. split; vm_compute; reflexivity. Qed.

(** * Further properties of [activation_collector.py] *)

(** ** The column check and the two groups *)

(** X1.  A data frame without the "InterPro" column: [main] raises
    ValueError right after the loading message, before any target is
    processed and before any file is written. *)
Theorem main_missing_column {F} {SF : Scalar F} (clt : CLT F)
        (esm_model : EsmModel F)
        (sample : DataFrame -> nat -> bool -> nat -> DataFrame)
        (targets : list string) (df : DataFrame)
        (parquet_path output_dir : string) (n_samples : nat) (w : world F) :
  ~ In "InterPro"%string (columns df) ->
  main_on clt esm_model sample targets df parquet_path output_dir n_samples w
  = ({| files := files w; stdout := MsgLoading parquet_path :: stdout w |},
     Err ValueError).
Proof.
  intros Hno. unfold main_on, mbind, print, lift.
  destruct (existsb (String.eqb "InterPro") (columns df)) eqn:Hcol.
  - exfalso. apply Hno. apply existsb_exists in Hcol.
    destruct Hcol as [c [Hin Hc]]. apply String.eqb_eq in Hc. now subst c.
  - reflexivity.
Qed.

Lemma main_missing_column_witness :
  main Toy.toy_clt Toy.toy_esm Toy.toy_sample Cases.no_family_df
       "swissprot.parquet" "out" 50 empty_world
  = ({| files := []; stdout := [MsgLoading "swissprot.parquet"] |},
     Err ValueError).
Proof.
  apply (@main_missing_column Z Scalar_Z Toy.toy_clt Toy.toy_esm
           Toy.toy_sample target_ids Cases.no_family_df "swissprot.parquet"
           "out" 50 empty_world).
  simpl. intros [H | [H | []]]; discriminate.
Defined.

Lemma df_filter_rows (df : DataFrame) (f : row -> bool) :
  rows (df_filter df (map f (rows df))) = filter f (rows df).
Proof.
  unfold df_filter. cbn [rows].
  induction (rows df) as [| r l IH]; simpl; [reflexivity |].
  destruct (f r); simpl; now rewrite IH.
Qed.

Lemma filter_partition_perm {A} (f : A -> bool) (l : list A) :
  Permutation (filter f l ++ filter (fun a => negb (f a)) l) l.
Proof.
  induction l as [| a l IH]; simpl; [constructor |].
  destruct (f a); simpl.
  - now constructor.
  - apply Permutation_sym, Permutation_cons_app, Permutation_sym, IH.
Qed.

(** X2.  The two groups of a target split the data frame: every row goes to
    exactly one of them, in the order of the frame; the members are the rows
    whose InterPro value is present and contains the target, and a row
    without an InterPro value is a non-member. *)
Theorem groups_split_frame (df : DataFrame) (target_id : string) :
  let member := fun r => match InterPro r with
                         | Some s => str_contains s target_id
                         | None => false
                         end in
  let group_in := df_filter df (has_target df target_id) in
  let group_out := df_filter df (map negb (has_target df target_id)) in
  rows group_in = filter member (rows df) /\
  rows group_out = filter (fun r => negb (member r)) (rows df) /\
  df_len group_in + df_len group_out = df_len df /\
  Permutation (rows group_in ++ rows group_out) (rows df) /\
  (forall r, In r (rows df) -> InterPro r = None -> In r (rows group_out)).
Proof.
  intros member group_in group_out.
  assert (Ein : rows group_in = filter member (rows df))
    by apply (df_filter_rows df member).
  assert (Eout : rows group_out = filter (fun r => negb (member r)) (rows df)).
  { unfold group_out, has_target. rewrite map_map.
    apply (df_filter_rows df (fun r => negb (member r))). }
  split; [exact Ein |]. split; [exact Eout |].
  pose proof (filter_partition_perm member (rows df)) as Hperm.
  split; [| split].
  - unfold df_len. rewrite Ein, Eout, <- length_app.
    now apply Permutation_length.
  - now rewrite Ein, Eout.
  - intros r Hin Hnull. rewrite Eout. apply filter_In.
    split; [exact Hin |]. unfold member. now rewrite Hnull.
Qed.

(** ** Writing is all or nothing *)

Lemma collect_latents_length {F} {SF : Scalar F} (clt : CLT F)
      (esm_model : EsmModel F) (bs : list (list string)) :
  forall acc out,
    collect_latents clt esm_model bs acc = Ok out ->
    length out = length acc + length (concat bs).
Proof.
  induction bs as [| batch rest IH]; intros acc out; cbn [collect_latents].
  - intros E. inversion E. simpl. lia.
  - destruct (get_latents_for_batch clt esm_model batch (k clt))
      as [r | e] eqn:Er; cbn [rbind]; [| discriminate].
    intros E. apply IH in E. apply get_latents_length in Er.
    rewrite E, length_app, Er. simpl. rewrite length_app. lia.
Qed.

(** X3.  Whatever the models do, one group either ends normally with exactly
    one new file, named [{name}_{target_id}.npz] and holding the entries and
    the sequences of the sampled frame with one array per sequence, or
    raises with no file written. *)
Theorem process_group_all_or_nothing {F} {SF : Scalar F} (clt : CLT F)
        (esm_model : EsmModel F) (output_dir target_id name : string)
        (dataframe : DataFrame) (w : world F) :
  let run := process_group clt esm_model output_dir target_id
                           (name, dataframe) w in
  match snd run with
  | Ok _ =>
      exists acts,
        files (fst run) =
          (out_file_of output_dir name target_id, archive_of acts dataframe)
          :: files w /\
        length acts = df_len dataframe
  | Err _ => files (fst run) = files w
  end.
Proof.
  intros run. subst run.
  unfold process_group, mbind, print, lift, savez, mret.
  destruct (@batches_cover string batch_size
              (map Sequence (rows dataframe)))
    as [bs [Ebs [Hcat _]]]; [unfold batch_size; lia |].
  rewrite Ebs. cbn [rbind].
  destruct (collect_latents clt esm_model bs []) as [acts | e] eqn:Eacts.
  - apply collect_latents_length in Eacts.
    rewrite Hcat, length_map in Eacts. simpl in Eacts.
    destruct acts as [| a acts']; cbn [fst snd];
      eexists; (split; [reflexivity | exact Eacts]).
  - reflexivity.
Qed.

(** ** Edge cases of the reassembler *)

(** X4.  When no layer is processed (the transcoder has no layer, or the
    encoder has none) a non-empty batch raises RuntimeError: the stack of an
    empty list of slices. *)
Theorem no_layer_raises {F} {SF : Scalar F} (clt : CLT F)
        (esm_model : EsmModel F) (batch_seqs : list string) (k_value : nat) :
  batch_seqs <> [] ->
  Nat.min (num_layers clt) (length (layers esm_model)) = 0 ->
  extract_layers clt esm_model batch_seqs k_value = Ok [] /\
  get_latents_for_batch clt esm_model batch_seqs k_value = Err RuntimeError.
Proof.
  intros Hne Hmin.
  assert (Eld : extract_layers clt esm_model batch_seqs k_value = Ok []).
  { unfold extract_layers.
    destruct (layers esm_model) as [| layer rest]; [reflexivity |].
    cbn [layer_loop]. simpl in Hmin.
    destruct (num_layers clt) as [| n]; [reflexivity | simpl in Hmin; lia]. }
  split; [exact Eld |].
  unfold get_latents_for_batch. rewrite Eld. cbn [rbind].
  destruct batch_seqs as [| s rest]; [congruence |].
  reflexivity.
Qed.

Lemma no_layer_raises_witness :
  extract_layers Cases.flat_clt Toy.toy_esm ["MK"]%string 2 = Ok [] /\
  get_latents_for_batch Cases.flat_clt Toy.toy_esm ["MK"]%string 2
  = Err RuntimeError.
Proof.
  apply (@no_layer_raises Z Scalar_Z Cases.flat_clt Toy.toy_esm
           ["MK"]%string 2).
  - discriminate.
  - reflexivity.
Defined.

(** X5.  The slice is clamped to the token axis: for layer tensors of shape
    (B, T, Hd) the reassembler never raises, and the array of a sequence of
    length L has min(L, T-1) positions, fewer than L when the token axis is
    shorter than L+1. *)
Theorem reassemble_clamps {F} (ld : list (tensor3 F))
        (batch_seqs : list string) (T Hd : nat) :
  ld <> [] ->
  Forall (shape3 (length batch_seqs) T Hd) ld ->
  exists res,
    reassemble ld batch_seqs = Ok res /\
    length res = length batch_seqs /\
    forall b, b < length batch_seqs ->
      shape3 (length ld)
             (Nat.min (String.length (nth b batch_seqs ""%string)) (T - 1))
             Hd (nth b res []).
Proof.
  intros Hne Hld.
  rewrite reassemble_ok with (Hd := Hd) (T := T); [| exact Hne | exact Hld].
  eexists. split; [reflexivity |]. split.
  - now rewrite length_map, length_seq.
  - intros b Hb. rewrite nth_map_seq by exact Hb.
    unfold residue_slices. split.
    + now rewrite length_map.
    + apply Forall_map. eapply Forall_impl; [| exact Hld].
      intros layer Hlayer.
      set (L := String.length (nth b batch_seqs ""%string)).
      replace (Nat.min L (T - 1)) with (Nat.min (1 + L - 1) (T - 1)) by lia.
      apply slice_shape. apply (shape3_nth Hlayer Hb).
Qed.

Lemma reassemble_clamps_witness :
  exists res,
    reassemble Cases.short_layers ["MKVVVVV"; "A"]%string = Ok res /\
    length res = 2 /\
    forall b, b < 2 ->
      shape3 2
             (Nat.min (String.length (nth b ["MKVVVVV"; "A"]%string ""%string))
                      (4 - 1))
             1 (nth b res []).
Proof.
  apply (@reassemble_clamps Z Cases.short_layers ["MKVVVVV"; "A"]%string 4 1).
  - discriminate.
  - repeat constructor.
Defined.

(** ** Residues are read one token to the right *)

Lemma nth_slice {A} (a e t : nat) (l : list A) (d : A) :
  t < e - a -> nth t (slice a e l) d = nth (a + t) l d.
Proof.
  intros Ht. unfold slice. rewrite nth_firstn.
  apply Nat.ltb_lt in Ht. rewrite Ht. apply nth_skipn.
Qed.

Lemma nth_map_default {A B} (f : A -> B) (l : list A) (i : nat) (d : A)
      (d' : B) :
  i < length l -> nth i (map f l) d' = f (nth i l d).
Proof.
  intros Hi. rewrite (nth_indep _ d' (f d)) by now rewrite length_map.
  apply map_nth.
Qed.

(** X6.  In the array of sequence [b], position [t] of layer [l] is the
    latent vector of token [t+1] of row [b] of that layer's tensor: the
    leading marker at token 0 is dropped and residue [t] is read at token
    [t+1]. *)
Theorem residue_reads_next_token {F} {SF : Scalar F} (clt : CLT F)
        (esm_model : EsmModel F) (E Hd : nat) (batch_seqs : list string)
        (k_value : nat) :
  collaborators_ok clt esm_model E Hd ->
  batch_seqs <> [] ->
  0 < Nat.min (num_layers clt) (length (layers esm_model)) ->
  exists layers_data res,
    extract_layers clt esm_model batch_seqs k_value = Ok layers_data /\
    get_latents_for_batch clt esm_model batch_seqs k_value = Ok res /\
    forall b l t,
      b < length batch_seqs -> l < length layers_data ->
      t < String.length (nth b batch_seqs ""%string) ->
      nth t (nth l (nth b res []) []) [] =
      nth (S t) (nth b (nth l layers_data []) []) [].
Proof.
  intros Hok Hne Hnl.
  destruct (extract_layers_ok Hok k_value Hne)
    as [ld [T [Eld [Hlen [Hld _]]]]].
  assert (Hldne : ld <> [])
    by (destruct ld; [simpl in Hlen; lia | discriminate]).
  exists ld. eexists. split; [exact Eld |]. split.
  { unfold get_latents_for_batch. rewrite Eld. cbn [rbind].
    apply reassemble_ok with (Hd := Hd) (T := T); assumption. }
  intros b l t Hb Hl Ht. rewrite nth_map_seq by exact Hb.
  unfold residue_slices.
  rewrite (nth_map_default _ ld [] [] Hl).
  rewrite nth_slice by lia. reflexivity.
Qed.

Lemma residue_reads_next_token_witness :
  exists layers_data res,
    extract_layers Toy.toy_clt Toy.toy_esm ["MKV"; "ACDEF"]%string 2
      = Ok layers_data /\
    get_latents_for_batch Toy.toy_clt Toy.toy_esm ["MKV"; "ACDEF"]%string 2
      = Ok res /\
    forall b l t,
      b < 2 -> l < length layers_data ->
      t < String.length (nth b ["MKV"; "ACDEF"]%string ""%string) ->
      nth t (nth l (nth b res []) []) [] =
      nth (S t) (nth b (nth l layers_data []) []) [].
Proof.
  apply (@residue_reads_next_token Z Scalar_Z Toy.toy_clt Toy.toy_esm 2 4
           ["MKV"; "ACDEF"]%string 2 ToyFacts.toy_ok).
  - discriminate.
  - simpl. lia.
Defined.

(** ** File names *)

Lemma append_inv_head (d a b : string) :
  (d ++ a)%string = (d ++ b)%string -> a = b.
Proof.
  induction d as [| c d IH]; simpl; intros E; [exact E |].
  injection E as E. now apply IH.
Qed.

Lemma append_length (a b : string) :
  String.length (a ++ b) = String.length a + String.length b.
Proof. induction a as [| c a IH]; simpl; [reflexivity | now rewrite IH]. Qed.

Lemma append_inv_tail (s a b : string) :
  (a ++ s)%string = (b ++ s)%string -> a = b.
Proof.
  revert b. induction a as [| c a IH]; intros [| c' b] E.
  - reflexivity.
  - apply (f_equal String.length) in E. simpl in E.
    rewrite append_length in E. lia.
  - apply (f_equal String.length) in E. simpl in E.
    rewrite append_length in E. lia.
  - simpl in E. injection E as Ec E. subst c'. f_equal. now apply IH.
Qed.

Lemma path_join_inj (dir f1 f2 : string) :
  path_join dir f1 = path_join dir f2 -> f1 = f2.
Proof.
  unfold path_join.
  destruct ((String.length dir =? 0) || ends_with_slash dir); intros E.
  - now apply append_inv_head in E.
  - apply append_inv_head in E. now apply (append_inv_head "/") in E.
Qed.

(** X7.  The file name determines the group and the target: the positives
    and the negatives archive of a target never share a file, and archives
    of different targets never do. *)
Theorem out_file_determines_group_and_target
        (output_dir n1 n2 t1 t2 : string) :
  In n1 ["positives"; "negatives"]%string ->
  In n2 ["positives"; "negatives"]%string ->
  out_file_of output_dir n1 t1 = out_file_of output_dir n2 t2 ->
  n1 = n2 /\ t1 = t2.
Proof.
  intros H1 H2 E. unfold out_file_of in E. apply path_join_inj in E.
  simpl in H1, H2.
  destruct H1 as [<- | [<- | []]], H2 as [<- | [<- | []]];
    simpl in E; try discriminate;
    (split; [reflexivity |]);
    injection E as E; apply (append_inv_tail ".npz"); exact E.
Qed.

Lemma out_file_determines_group_and_target_witness :
  "positives"%string = "positives"%string /\
  "IPR000786"%string = "IPR000786"%string.
Proof.
  apply (@out_file_determines_group_and_target "out" "positives" "positives"
           "IPR000786" "IPR000786").
  - simpl. now left.
  - simpl. now left.
  - reflexivity.
Defined.

(** ** Files of a whole run *)

(** X8.  The loop over the targets ends normally and writes, for every
    target with a match and in the order of the targets, its positives then
    its negatives archive, and nothing else.  A file of another name reads
    afterwards as it read before; a written name reads as one of the
    archives written under it; and for distinct targets the written names
    are distinct, two per target with a match. *)
Theorem run_writes_two_archives_per_match {F} {SF : Scalar F} (clt : CLT F)
        (esm_model : EsmModel F)
        (sample : DataFrame -> nat -> bool -> nat -> DataFrame)
        (E Hd : nat) (targets : list string) (df : DataFrame)
        (output_dir : string) (n_samples : nat) (w : world F) :
  collaborators_ok clt esm_model E Hd ->
  0 < Nat.min (num_layers clt) (length (layers esm_model)) ->
  exists w' writes,
    for_each (process_target clt esm_model sample df output_dir n_samples)
             targets w = (w', Ok tt) /\
    files w' = writes ++ files w /\
    map fst writes = rev (written_names df output_dir targets) /\
    (forall name,
        ~ In name (written_names df output_dir targets) ->
        read_file (files w') name = read_file (files w) name) /\
    (forall name,
        In name (written_names df output_dir targets) ->
        exists a, read_file (files w') name = Some a /\
                  In (name, a) writes) /\
    (NoDup targets ->
     NoDup (written_names df output_dir targets) /\
     length (written_names df output_dir targets)
     = 2 * length (filter (matched df) targets)).
Proof.
  intros Hok Hnl.
  destruct (for_each_target_writes sample Hok Hnl df output_dir n_samples
              targets targets (fun t Ht => Ht) w)
    as [w' [writes [Ew [Hf [Hn _]]]]].
  exists w', writes. split; [exact Ew |]. split; [exact Hf |].
  split; [exact Hn |].
  assert (Hnames : forall name,
             In name (map fst writes) <->
             In name (written_names df output_dir targets)).
  { intros name. rewrite Hn. symmetry. apply in_rev. }
  split; [| split].
  - intros name Hnot. rewrite Hf. apply read_file_app_notin.
    intros Hin. apply Hnot. now apply Hnames.
  - intros name Hin. rewrite Hf. apply read_file_app_in. now apply Hnames.
  - intros Hnd. split; [now apply written_names_NoDup |].
    unfold written_names.
    induction (filter (matched df) targets) as [| t l IH]; simpl; lia.
Qed.

Lemma run_writes_two_archives_per_match_witness :
  exists w' writes,
    for_each (process_target Toy.toy_clt Toy.toy_esm Toy.toy_sample
                             Toy.toy_df "out" 50)
             target_ids empty_world = (w', Ok tt) /\
    files w' = writes ++ files empty_world /\
    map fst writes = rev (written_names Toy.toy_df "out" target_ids) /\
    (forall name,
        ~ In name (written_names Toy.toy_df "out" target_ids) ->
        read_file (files w') name = read_file (files empty_world) name) /\
    (forall name,
        In name (written_names Toy.toy_df "out" target_ids) ->
        exists a, read_file (files w') name = Some a /\
                  In (name, a) writes) /\
    (NoDup target_ids ->
     NoDup (written_names Toy.toy_df "out" target_ids) /\
     length (written_names Toy.toy_df "out" target_ids)
     = 2 * length (filter (matched Toy.toy_df) target_ids)).
Proof.
  apply (@run_writes_two_archives_per_match Z Scalar_Z Toy.toy_clt
           Toy.toy_esm Toy.toy_sample 2 4 target_ids Toy.toy_df "out" 50
           empty_world ToyFacts.toy_ok).
  simpl. lia.
Defined.

(** * Properties of [extract_activations.py] *)

Lemma mapM_Forall2 {A B} (f : A -> result B) (xs : list A) (ys : list B) :
  mapM f xs = Ok ys -> Forall2 (fun x y => f x = Ok y) xs ys.
Proof.
  revert ys. induction xs as [| x xs IH]; simpl; intros ys E.
  - inversion E. constructor.
  - destruct (f x) as [y | e] eqn:Ey; simpl in E; [| discriminate].
    destruct (mapM f xs) as [ys' | e]; simpl in E; [| discriminate].
    inversion E. constructor; [exact Ey | now apply IH].
Qed.

Lemma Forall2_in_r {A B} (R : A -> B -> Prop) (xs : list A) (ys : list B) :
  Forall2 R xs ys -> forall y, In y ys -> exists x, In x xs /\ R x y.
Proof.
  induction 1 as [| x y xs ys Hxy _ IH]; intros y' Hin; [contradiction |].
  destruct Hin as [<- | Hin].
  - exists x. split; [now left | exact Hxy].
  - destruct (IH y' Hin) as [x' [Hx' Hr]]. exists x'. split; [now right | exact Hr].
Qed.

Lemma Forall2_in_l {A B} (R : A -> B -> Prop) (xs : list A) (ys : list B) :
  Forall2 R xs ys -> forall x, In x xs -> exists y, In y ys /\ R x y.
Proof.
  induction 1 as [| x y xs ys Hxy _ IH]; intros x' Hin; [contradiction |].
  destruct Hin as [<- | Hin].
  - exists y. split; [now left | exact Hxy].
  - destruct (IH x' Hin) as [y' [Hy' Hr]]. exists y'. split; [now right | exact Hr].
Qed.

Lemma index_nth {A} (l : list A) (i : nat) (a d : A) :
  index l i = Ok a -> i < length l /\ a = nth i l d.
Proof.
  unfold index. destruct (nth_error l i) as [a' |] eqn:E; [| discriminate].
  intros E'. inversion E'. subst a'. split.
  - apply nth_error_Some. congruence.
  - symmetry. now apply nth_error_nth.
Qed.

Section ExtractFacts.
Context {F : Type}.
Variable fabs_pos : F -> bool.

Lemma select_values_In (values : list F) (l p : nat) (sel : list Z) :
  forall evs,
    select_values fabs_pos values l p sel = Ok evs ->
    forall e, In e evs <->
              exists i v, In i sel /\ np_index values i = Ok v /\
                          fabs_pos v = true /\ e = (l, p, v, i).
Proof.
  induction sel as [| i sel IH]; intros evs; cbn [select_values].
  - intros E e. inversion E. split; [contradiction |].
    intros [i [v [[] _]]].
  - destruct (np_index values i) as [v | err] eqn:Ev; cbn [rbind];
      [| discriminate].
    destruct (select_values fabs_pos values l p sel) as [more | err] eqn:Em;
      cbn [rbind]; [| discriminate].
    intros E e. inversion E as [Eevs]. clear E.
    specialize (IH more eq_refl e).
    split.
    + intros Hin.
      assert (Hcase : e = (l, p, v, i) /\ fabs_pos v = true \/ In e more).
      { destruct (fabs_pos v) eqn:Hv; [| now right].
        destruct Hin as [<- | Hin]; [now left | now right]. }
      destruct Hcase as [[-> Hv] | Hmore].
      * exists i, v. repeat split; auto. now left.
      * apply IH in Hmore. destruct Hmore as [i' [v' [Hi' H']]].
        exists i', v'. split; [now right | exact H'].
    + intros [i' [v' [[<- | Hi'] [Ev' [Hv' ->]]]]].
      * rewrite Ev in Ev'. inversion Ev'. subst v'. rewrite Hv'. now left.
      * assert (Hmore : In (l, p, v', i') more)
          by (apply IH; exists i', v'; auto).
        destruct (fabs_pos v); [now right | exact Hmore].
Qed.

Lemma select_layer_In (activation : tensor3 F) (l : nat) (sel : list Z)
      (evs : list (event F)) :
  select_layer fabs_pos activation l sel = Ok evs ->
  forall e, In e evs <->
            exists p i v,
              p < dim1 activation /\ In i sel /\
              np_index (nth p (nth l activation []) []) i = Ok v /\
              fabs_pos v = true /\ e = (l, p, v, i).
Proof.
  unfold select_layer.
  destruct (mapM _ (seq 0 (dim1 activation))) as [per | err] eqn:Em;
    cbn [rbind]; [| discriminate].
  intros E e. inversion E. subst evs. clear E.
  apply mapM_Forall2 in Em. rewrite in_concat. split.
  - intros [block [Hblock He]].
    destruct (Forall2_in_r Em _ Hblock) as [p [Hp Hf]].
    apply in_seq in Hp.
    destruct (index activation l) as [layer | err] eqn:El; cbn [rbind] in Hf;
      [| discriminate].
    destruct (index layer p) as [values | err] eqn:Ep; cbn [rbind] in Hf;
      [| discriminate].
    apply (index_nth _ _ []) in El. destruct El as [_ ->].
    apply (index_nth _ _ []) in Ep. destruct Ep as [_ ->].
    apply (select_values_In _ _ _ _ Hf) in He.
    destruct He as [i [v [Hi [Ev [Hv ->]]]]].
    exists p, i, v. repeat split; auto. lia.
  - intros [p [i [v [Hp [Hi [Ev [Hv ->]]]]]]].
    assert (Hin : In p (seq 0 (dim1 activation))) by (apply in_seq; lia).
    destruct (Forall2_in_l Em _ Hin) as [block [Hblock Hf]].
    exists block. split; [exact Hblock |].
    destruct (index activation l) as [layer | err] eqn:El; cbn [rbind] in Hf;
      [| discriminate].
    destruct (index layer p) as [values | err] eqn:Ep; cbn [rbind] in Hf;
      [| discriminate].
    apply (index_nth _ _ []) in El. destruct El as [_ ->].
    apply (index_nth _ _ []) in Ep. destruct Ep as [_ ->].
    apply (select_values_In _ _ _ _ Hf). exists i, v. auto.
Qed.

(** X9.  The saved list holds exactly the events [layer, position, value,
    index] such that the layer's key [str(layer)] is in [feature_nodes], the
    index is one of its selected indices, the value is the array's entry
    there and is non-zero; a layer that is not listed contributes nothing. *)
Theorem select_events_exact (activation : tensor3 F)
        (feature_nodes : list (string * list Z)) (evs : list (event F)) :
  select_events fabs_pos activation feature_nodes = Ok evs ->
  forall l p v i,
    In (l, p, v, i) evs <->
    l < length activation /\ p < dim1 activation /\
    exists sel,
      dict_get feature_nodes (py_str l) = Some sel /\ In i sel /\
      np_index (nth p (nth l activation []) []) i = Ok v /\
      fabs_pos v = true.
Proof.
  unfold select_events.
  destruct (mapM _ (seq 0 (length activation))) as [per | err] eqn:Em;
    cbn [rbind]; [| discriminate].
  intros E l p v i. inversion E. subst evs. clear E.
  apply mapM_Forall2 in Em. rewrite in_concat. split.
  - intros [block [Hblock He]].
    destruct (Forall2_in_r Em _ Hblock) as [l' [Hl' Hf]].
    apply in_seq in Hl'. cbv zeta in Hf.
    destruct (dict_get feature_nodes (py_str l')) as [sel |] eqn:Hd.
    + apply (@select_layer_In activation l' sel block Hf) in He.
      destruct He as [p' [i' [v' [Hp' [Hi' [Ev [Hv Heq]]]]]]].
      inversion Heq. subst l' p' v' i'.
      split; [lia |]. split; [exact Hp' |].
      exists sel. auto.
    + inversion Hf. subst block. contradiction.
  - intros [Hl [Hp [sel [Hd [Hi [Ev Hv]]]]]].
    assert (Hin : In l (seq 0 (length activation))) by (apply in_seq; lia).
    destruct (Forall2_in_l Em _ Hin) as [block [Hblock Hf]].
    exists block. split; [exact Hblock |].
    cbv zeta in Hf. rewrite Hd in Hf.
    apply (@select_layer_In activation l sel block Hf). exists p, i, v. auto.
Qed.

End ExtractFacts.

Lemma select_events_exact_witness :
  select_events Cases.nonzero [[[7%Z; 0%Z; 0%Z]]; [[0%Z; 0%Z; 5%Z]]]
                Cases.nodes
  = Ok [(0, 0, 7%Z, 0%Z); (1, 0, 5%Z, (-1)%Z)] /\
  (forall l p v i,
      In (l, p, v, i) [(0, 0, 7%Z, 0%Z); (1, 0, 5%Z, (-1)%Z)] <->
      l < 2 /\ p < 1 /\
      exists sel,
        dict_get Cases.nodes (py_str l) = Some sel /\ In i sel /\
        np_index (nth p (nth l [[[7%Z; 0%Z; 0%Z]]; [[0%Z; 0%Z; 5%Z]]] []) [])
                 i = Ok v /\
        Cases.nonzero v = true).
Proof.
  split; [reflexivity |].
  apply (@select_events_exact Z Cases.nonzero
           [[[7%Z; 0%Z; 0%Z]]; [[0%Z; 0%Z; 5%Z]]] Cases.nodes).
  reflexivity.
Defined.

(** ** Index errors of the selection *)

Lemma mapM_ok_exists {A B} (f : A -> result B) (xs : list A) :
  (forall x, In x xs -> exists y, f x = Ok y) ->
  exists ys, mapM f xs = Ok ys.
Proof.
  induction xs as [| x xs IH]; simpl; intros Hf.
  - now exists [].
  - destruct (Hf x (or_introl eq_refl)) as [y Ey]. rewrite Ey. simpl.
    destruct IH as [ys Eys]; [intros x' Hx'; apply Hf; now right |].
    rewrite Eys. simpl. now eexists.
Qed.


Lemma np_index_ok {F} (values : list F) (i : Z) :
  (- Z.of_nat (length values) <= i < Z.of_nat (length values))%Z ->
  exists v, np_index values i = Ok v.
Proof.
  intros Hi. unfold np_index.
  destruct ((0 <=? i) && (i <? Z.of_nat (length values)))%Z eqn:Hpos.
  - apply andb_prop in Hpos. destruct Hpos as [H0 H1].
    apply Z.leb_le in H0. apply Z.ltb_lt in H1.
    destruct values as [| d values']; [simpl in H1; lia |].
    rewrite (index_ok _ d) by lia. now eexists.
  - destruct ((- Z.of_nat (length values) <=? i) && (i <? 0))%Z eqn:Hneg.
    + apply andb_prop in Hneg. destruct Hneg as [H0 H1].
      apply Z.leb_le in H0. apply Z.ltb_lt in H1.
      destruct values as [| d values']; [simpl in H0; lia |].
      rewrite (index_ok _ d) by lia. now eexists.
    + apply andb_false_iff in Hpos, Hneg.
      rewrite Z.leb_gt, Z.ltb_ge in Hpos, Hneg. lia.
Qed.

Lemma np_index_range {F} (values : list F) (i : Z) (v : F) :
  np_index values i = Ok v ->
  (- Z.of_nat (length values) <= i < Z.of_nat (length values))%Z.
Proof.
  unfold np_index.
  destruct ((0 <=? i) && (i <? Z.of_nat (length values)))%Z eqn:Hpos.
  - apply andb_prop in Hpos. destruct Hpos as [H0 H1].
    apply Z.leb_le in H0. apply Z.ltb_lt in H1. lia.
  - destruct ((- Z.of_nat (length values) <=? i) && (i <? 0))%Z eqn:Hneg;
      [| discriminate].
    apply andb_prop in Hneg. destruct Hneg as [H0 H1].
    apply Z.leb_le in H0. apply Z.ltb_lt in H1. lia.
Qed.


Section ExtractErrors.
Context {F : Type}.
Variable fabs_pos : F -> bool.

Lemma select_values_ok (values : list F) (l p : nat) (sel : list Z) :
  Forall (fun i => (- Z.of_nat (length values) <= i
                    < Z.of_nat (length values))%Z) sel ->
  exists evs, select_values fabs_pos values l p sel = Ok evs.
Proof.
  induction 1 as [| i sel Hi _ IH]; cbn [select_values].
  - now eexists.
  - destruct (@np_index_ok F values i Hi) as [v Ev]. rewrite Ev. cbn [rbind].
    destruct IH as [more Em]. rewrite Em. cbn [rbind]. now eexists.
Qed.


(** Rows of an array of shape (n, L, H). *)
Lemma array_row (activation : tensor3 F) (n L H l p : nat) :
  shape3 n L H activation -> l < n -> p < L ->
  index activation l = Ok (nth l activation []) /\
  index (nth l activation []) p = Ok (nth p (nth l activation []) []) /\
  length (nth p (nth l activation []) []) = H.
Proof.
  intros Hsh Hl Hp.
  pose proof (shape3_nth Hsh Hl) as Hlayer.
  destruct Hsh as [Hn _].
  split; [apply index_ok; lia |].
  split; [apply index_ok; destruct Hlayer; lia |].
  apply (shape2_nth Hlayer Hp).
Qed.

Lemma select_layer_ok (activation : tensor3 F) (n L H l : nat)
      (sel : list Z) :
  shape3 n L H activation -> l < n ->
  Forall (fun i => (- Z.of_nat H <= i < Z.of_nat H)%Z) sel ->
  exists evs, select_layer fabs_pos activation l sel = Ok evs.
Proof.
  intros Hsh Hl Hsel. unfold select_layer.
  destruct (mapM_ok_exists
              (fun seq_idx =>
                 layer <- index activation l ;;
                 values <- index layer seq_idx ;;
                 select_values fabs_pos values l seq_idx sel)
              (seq 0 (dim1 activation))) as [blocks Eb].
  { intros p Hp. apply in_seq in Hp.
    rewrite (shape3_dim1 Hsh) in Hp by lia.
    destruct (array_row Hsh Hl (p := p)) as [E1 [E2 Hlen]]; [lia |].
    rewrite E1. cbn [rbind]. rewrite E2. cbn [rbind].
    apply select_values_ok. now rewrite Hlen. }
  rewrite Eb. cbn [rbind]. now eexists.
Qed.

Lemma select_events_ok (activation : tensor3 F)
      (feature_nodes : list (string * list Z)) (n L H : nat) :
  shape3 n L H activation ->
  (forall l sel,
      l < n -> dict_get feature_nodes (py_str l) = Some sel ->
      Forall (fun i => (- Z.of_nat H <= i < Z.of_nat H)%Z) sel) ->
  exists evs, select_events fabs_pos activation feature_nodes = Ok evs.
Proof.
  intros Hsh Hsel. unfold select_events.
  destruct (mapM_ok_exists
              (fun layer_idx =>
                 match dict_get feature_nodes (py_str layer_idx) with
                 | Some selected_indices =>
                     select_layer fabs_pos activation layer_idx
                                  selected_indices
                 | None => Ok []
                 end)
              (seq 0 (length activation))) as [per Eper].
  { intros l Hl. apply in_seq in Hl.
    destruct (dict_get feature_nodes (py_str l)) as [sel |] eqn:Hd;
      [| now eexists].
    assert (Hln : l < n) by (destruct Hsh; lia).
    eapply select_layer_ok; [exact Hsh | exact Hln | now apply (Hsel l)]. }
  cbv zeta. rewrite Eper. cbn [rbind]. now eexists.
Qed.


End ExtractErrors.


(** ** From the collector to the selection *)

(** X11.  The positives archive of a target with a match, written with a
    positive sample count, is a valid input of the selection script: its
    first sequence and its first array exist, and with selected indices
    inside [-Hd, Hd) the script returns that sequence and a list of
    events. *)
Theorem positives_archive_feeds_selection {F} {SF : Scalar F} (clt : CLT F)
        (esm_model : EsmModel F)
        (sample : DataFrame -> nat -> bool -> nat -> DataFrame)
        (fabs_pos : F -> bool) (feature_nodes : list (string * list Z))
        (E Hd : nat) (df : DataFrame) (output_dir : string)
        (n_samples : nat) (target_id : string) (w : world F) :
  collaborators_ok clt esm_model E Hd ->
  sample_ok sample ->
  0 < Nat.min (num_layers clt) (length (layers esm_model)) ->
  matched df target_id = true ->
  0 < n_samples ->
  (forall key sel, In (key, sel) feature_nodes ->
     Forall (fun i => (- Z.of_nat Hd <= i < Z.of_nat Hd)%Z) sel) ->
  exists pos neg w' s evs,
    process_target clt esm_model sample df output_dir n_samples target_id w
      = (w', Ok tt) /\
    files w' = (out_file_of output_dir "negatives" target_id, neg) ::
               (out_file_of output_dir "positives" target_id, pos) ::
               files w /\
    hd_error (sequences pos) = Some s /\
    extract_activations fabs_pos pos feature_nodes = Ok (s, evs).
Proof.
  intros Hok Hs Hnl Hm Hn Hsel.
  assert (Hnz : df_len (df_filter df (has_target df target_id)) <> 0).
  { unfold matched in Hm. apply negb_true_iff, Nat.eqb_neq in Hm. exact Hm. }
  destruct (process_target_matched sample Hok Hnl df output_dir n_samples
              target_id w Hnz)
    as [acts_in [acts_out [w' [Ew [Hf [Hin _]]]]]].
  set (group_in := df_filter df (has_target df target_id)) in *.
  set (df_in := sample group_in (Nat.min (df_len group_in) n_samples) true 42)
    in *.
  assert (Lin : df_len df_in = Nat.min (df_len group_in) n_samples)
    by (apply Hs; lia).
  unfold df_len in Lin at 1.
  destruct (rows df_in) as [| r rest] eqn:Erows; [simpl in Lin; lia |].
  unfold arrays_of_shape in Hin. cbn [map] in Hin.
  inversion Hin as [| a s0 acts' seqs' Ha _ Ea Es]. subst.
  assert (Hdict : forall l sel,
             l < Nat.min (num_layers clt) (length (layers esm_model)) ->
             dict_get feature_nodes (py_str l) = Some sel ->
             Forall (fun i => (- Z.of_nat Hd <= i < Z.of_nat Hd)%Z) sel).
  { intros l sel _ Hget. apply (Hsel (py_str l)).
    clear - Hget. induction feature_nodes as [| [k' v'] d IH];
      simpl in Hget; [discriminate |].
    destruct (String.eqb k' (py_str l)) eqn:Ek.
    - apply String.eqb_eq in Ek. inversion Hget. subst. now left.
    - right. now apply IH. }
  destruct (@select_events_ok F fabs_pos a feature_nodes _ _ _ Ha Hdict)
    as [evs Eev].
  eexists. eexists. exists w', (Sequence r), evs.
  split; [exact Ew |]. split; [exact Hf |].
  unfold extract_activations, archive_of.
  cbn [sequences activations]. rewrite Erows. cbn [map hd_error].
  split; [reflexivity |].
  unfold index. cbn [nth_error rbind]. rewrite Eev. reflexivity.
Qed.

Lemma positives_archive_feeds_selection_witness :
  exists pos neg w' s evs,
    process_target Toy.toy_clt Toy.toy_esm Toy.toy_sample Toy.toy_df "out" 50
                   "IPR000786" empty_world = (w', Ok tt) /\
    files w' = (out_file_of "out" "negatives" "IPR000786", neg) ::
               (out_file_of "out" "positives" "IPR000786", pos) ::
               files empty_world /\
    hd_error (sequences pos) = Some s /\
    extract_activations Cases.nonzero pos Cases.nodes = Ok (s, evs).
Proof.
  apply (@positives_archive_feeds_selection Z Scalar_Z Toy.toy_clt
           Toy.toy_esm Toy.toy_sample Cases.nonzero Cases.nodes 2 4
           Toy.toy_df "out" 50 "IPR000786" empty_world
           ToyFacts.toy_ok ToyFacts.toy_sample_ok).
  - simpl. lia.
  - reflexivity.
  - lia.
  - intros key sel [H | [H | []]]; inversion H; subst;
      repeat constructor; lia.
Defined.

(** ** The selection of a sparse array is small *)

Lemma filter_map_length {A B} (P : B -> bool) (g : A -> B) (xs : list A) :
  length (filter P (map g xs)) = length (filter (fun x => P (g x)) xs).
Proof.
  induction xs as [| x xs IH]; simpl; [reflexivity |].
  destruct (P (g x)); simpl; now rewrite IH.
Qed.

Lemma filter_length_impl {A} (P Q : A -> bool) (l : list A) :
  (forall a, P a = true -> Q a = true) ->
  length (filter P l) <= length (filter Q l).
Proof.
  intros HPQ. induction l as [| a l IH]; simpl; [lia |].
  destruct (P a) eqn:HP.
  - rewrite (HPQ a HP). simpl. lia.
  - destruct (Q a); simpl; lia.
Qed.

Lemma positions_length {A} (P : A -> bool) (values : list A) :
  forall start,
  length (filter (fun j => match nth_error values (j - start) with
                           | Some v => P v
                           | None => false
                           end) (seq start (length values)))
  = length (filter P values).
Proof.
  induction values as [| a values IH]; intros start; [reflexivity |].
  cbn [length seq filter]. rewrite Nat.sub_diag. cbn [nth_error].
  assert (E : filter (fun j => match nth_error (a :: values) (j - start) with
                               | Some v => P v
                               | None => false
                               end) (seq (S start) (length values))
              = filter (fun j => match nth_error values (j - S start) with
                                 | Some v => P v
                                 | None => false
                                 end) (seq (S start) (length values))).
  { apply filter_ext_in. intros j Hj. apply in_seq in Hj.
    replace (j - start) with (S (j - S start)) by lia. reflexivity. }
  rewrite E. destruct (P a); cbn [length]; now rewrite IH.
Qed.

Lemma concat_length_bound {A} (c : nat) (ys : list (list A)) :
  Forall (fun y => length y <= c) ys -> length (concat ys) <= length ys * c.
Proof.
  induction 1 as [| y ys Hy _ IH]; simpl; [lia |].
  rewrite length_app. lia.
Qed.

Lemma dict_get_In {V} (d : list (string * V)) (key : string) (v : V) :
  dict_get d key = Some v -> In (key, v) d.
Proof.
  induction d as [| [k' v'] d IH]; simpl; [discriminate |].
  destruct (String.eqb k' key) eqn:Ek.
  - apply String.eqb_eq in Ek. intros E. inversion E. subst. now left.
  - intros E. right. now apply IH.
Qed.

Lemma np_index_nonneg {F} (values : list F) (i : Z) (v : F) :
  (0 <= i)%Z -> np_index values i = Ok v ->
  nth_error values (Z.to_nat i) = Some v.
Proof.
  intros Hi. unfold np_index.
  destruct ((0 <=? i) && (i <? Z.of_nat (length values)))%Z.
  - unfold index. destruct (nth_error values (Z.to_nat i));
      [intros E; now inversion E | discriminate].
  - destruct ((- Z.of_nat (length values) <=? i) && (i <? 0))%Z eqn:Hneg;
      [| discriminate].
    apply andb_prop in Hneg. destruct Hneg as [_ H1].
    apply Z.ltb_lt in H1. lia.
Qed.

Section ExtractSparse.
Context {F : Type} {SF : Scalar F}.
Variable fabs_pos : F -> bool.

Lemma select_values_indices (values : list F) (l p : nat) (sel : list Z) :
  forall evs,
    select_values fabs_pos values l p sel = Ok evs ->
    map snd evs =
    filter (fun i => match np_index values i with
                     | Ok v => fabs_pos v
                     | Err _ => false
                     end) sel.
Proof.
  induction sel as [| i sel IH]; intros evs; cbn [select_values].
  - intros E. now inversion E.
  - destruct (np_index values i) as [v | err] eqn:Ev; cbn [rbind];
      [| discriminate].
    destruct (select_values fabs_pos values l p sel) as [more | err];
      cbn [rbind]; [| discriminate].
    intros E. inversion E. cbn [filter]. rewrite Ev.
    specialize (IH more eq_refl).
    destruct (fabs_pos v); cbn [map snd]; now rewrite IH.
Qed.

Lemma select_values_length (values : list F) (l p : nat) (sel : list Z)
      (evs : list (event F)) :
  select_values fabs_pos values l p sel = Ok evs ->
  NoDup sel -> Forall (fun i => (0 <= i)%Z) sel ->
  length evs <= length (filter fabs_pos values).
Proof.
  intros E Hnd Hpos.
  pose proof (select_values_indices _ _ _ _ E) as Hidx.
  unfold event in *.
  set (Q := fun i => match np_index values i with
                     | Ok v => fabs_pos v
                     | Err _ => false
                     end) in Hidx.
  rewrite <- (length_map snd evs), Hidx.
  rewrite <- (length_map Z.to_nat (filter Q sel)).
  rewrite <- (positions_length fabs_pos values 0).
  rewrite Forall_forall in Hpos.
  apply NoDup_incl_length.
  - apply NoDup_map_NoDup_ForallPairs; [| now apply NoDup_filter].
    intros a b Ha Hb Hab. apply filter_In in Ha, Hb.
    apply Z2Nat.inj; [apply Hpos, Ha | apply Hpos, Hb | exact Hab].
  - intros j Hj. apply in_map_iff in Hj. destruct Hj as [i [<- Hi]].
    apply filter_In in Hi. destruct Hi as [Hi HQ]. unfold Q in HQ.
    destruct (np_index values i) as [v | err] eqn:Ev; [| discriminate].
    apply np_index_nonneg in Ev; [| now apply Hpos].
    apply filter_In. split.
    + apply in_seq. split; [lia |]. simpl.
      apply nth_error_Some. congruence.
    + rewrite Nat.sub_0_r, Ev. exact HQ.
Qed.

(** X12.  Selection from a sparse array: when every position of the array
    has at most k non-zero entries, as the collector's arrays have, and the
    selected indices of every listed layer are distinct and non-negative,
    the saved list has at most k events per layer and position, so at most
    n_layers * seq_len * k in all. *)
Theorem select_events_bounded (activation : tensor3 F)
        (feature_nodes : list (string * list Z)) (k_value : nat)
        (evs : list (event F)) :
  select_events fabs_pos activation feature_nodes = Ok evs ->
  sparse k_value activation ->
  (forall v, fabs_pos v = true -> fis_zero v = false) ->
  (forall key sel, In (key, sel) feature_nodes ->
     NoDup sel /\ Forall (fun i => (0 <= i)%Z) sel) ->
  length evs <= length activation * (dim1 activation * k_value).
Proof.
  intros E Hsp Hnz Hsel. unfold select_events in E.
  destruct (mapM _ (seq 0 (length activation))) as [per | err] eqn:Em;
    cbn [rbind] in E; [| discriminate].
  inversion E. subst evs. clear E.
  pose proof (mapM_length _ _ Em) as Hlen. rewrite length_seq in Hlen.
  rewrite <- Hlen. apply concat_length_bound.
  eapply mapM_Forall; [| exact Em].
  intros l block _. cbv beta zeta.
  destruct (dict_get feature_nodes (py_str l)) as [sel |] eqn:Hd;
    [| intros E; inversion E; simpl; lia].
  apply dict_get_In, Hsel in Hd. destruct Hd as [Hnd Hpos].
  unfold select_layer.
  destruct (mapM _ (seq 0 (dim1 activation))) as [blocks | err] eqn:Ep;
    cbn [rbind]; [| discriminate].
  intros E. inversion E. subst block. clear E.
  pose proof (mapM_length _ _ Ep) as Hlb. rewrite length_seq in Hlb.
  rewrite <- Hlb. apply concat_length_bound.
  eapply mapM_Forall; [| exact Ep].
  intros p b0 _. cbv beta.
  destruct (index activation l) as [layer | err] eqn:El; cbn [rbind];
    [| discriminate].
  destruct (index layer p) as [values | err] eqn:Ev; cbn [rbind];
    [| discriminate].
  intros E. apply select_values_length in E; [| exact Hnd | exact Hpos].
  etransitivity; [exact E |].
  apply index_inv in El. apply index_inv in Ev.
  unfold sparse in Hsp. rewrite Forall_forall in Hsp.
  specialize (Hsp layer El). rewrite Forall_forall in Hsp.
  specialize (Hsp values Ev). cbv beta in Hsp.
  etransitivity; [| exact Hsp]. unfold count_nonzero.
  apply filter_length_impl. intros a Ha. now rewrite (Hnz a Ha).
Qed.

End ExtractSparse.

Lemma select_events_bounded_witness :
  length [(0, 0, 7%Z, 0%Z)] <= length [[[7%Z; 0%Z; 0%Z]]] * (1 * 1).
Proof.
  apply (@select_events_bounded Z Scalar_Z Cases.nonzero
           [[[7%Z; 0%Z; 0%Z]]] [("0"%string, [0%Z; 2%Z])] 1
           [(0, 0, 7%Z, 0%Z)]).
  - reflexivity.
  - repeat constructor.
  - intros v Hv. unfold Cases.nonzero in Hv.
    apply negb_true_iff, Z.eqb_neq in Hv.
    change (Z.eqb 0 v = false). apply Z.eqb_neq. lia.
  - intros key sel [H | []]. inversion H. subst. split.
    + repeat constructor; simpl; intuition discriminate.
    + repeat constructor; lia.
Defined.

(** * Properties of [convert_to_json], [extract_top_activations.py] *)

Section PyObjInduction.
Context {A : Type}.

Lemma ndarray_nested_ind (P : ndarray A -> Prop) :
  (forall a, P (NdScalar a)) ->
  (forall elems, Forall P elems -> P (NdAxis elems)) ->
  forall t, P t.
Proof.
  intros Hs Ha. fix IH 1. intros [a | elems].
  - apply Hs.
  - apply Ha. induction elems as [| t elems IHe]; constructor.
    + apply IH.
    + exact IHe.
Qed.

Lemma pyobj_nested_ind (P : pyobj A -> Prop) :
  (forall t, P (PyArray t)) ->
  (forall items, Forall (fun kv => P (snd kv)) items -> P (PyDict items)) ->
  (forall xs, Forall P xs -> P (PyList xs)) ->
  (forall xs, Forall P xs -> P (PyTuple xs)) ->
  (forall a, P (PyOther a)) ->
  forall obj, P obj.
Proof.
  intros Harr Hdict Hlist Htuple Hother. fix IH 1.
  intros [t | items | xs | xs | a].
  - apply Harr.
  - apply Hdict. induction items as [| [k0 v] items IHi]; constructor.
    + apply IH.
    + exact IHi.
  - apply Hlist. induction xs as [| x xs IHx]; constructor.
    + apply IH.
    + exact IHx.
  - apply Htuple. induction xs as [| x xs IHx]; constructor.
    + apply IH.
    + exact IHx.
  - apply Hother.
Qed.

End PyObjInduction.

Lemma key_eqb_eq (a b : pykey) : key_eqb a b = true <-> a = b.
Proof.
  destruct a as [s | x], b as [t | y]; simpl; split; intros H;
    try discriminate.
  - apply String.eqb_eq in H. now subst.
  - inversion H. apply String.eqb_refl.
  - apply Z.eqb_eq in H. now subst.
  - inversion H. apply Z.eqb_refl.
Qed.

Section DictFacts.
Context {V : Type}.

Lemma dict_put_In (d : list (pykey * V)) (key : pykey) (v : V)
      (x : pykey * V) :
  In x (dict_put d key v) -> In x d \/ x = (key, v).
Proof.
  induction d as [| [k' v'] d IH]; simpl.
  - intros [<- | []]. now right.
  - destruct (key_eqb k' key) eqn:Ek.
    + apply key_eqb_eq in Ek. subst k'.
      intros [<- | Hin]; [now right | left; now right].
    + intros [<- | Hin]; [left; now left |].
      destruct (IH Hin) as [H | H]; [left; now right | now right].
Qed.

Lemma dict_of_In_gen (pairs acc : list (pykey * V)) (x : pykey * V) :
  In x (fold_left (fun d kv => dict_put d (fst kv) (snd kv)) pairs acc) ->
  In x acc \/ In x pairs.
Proof.
  revert acc. induction pairs as [| [k0 v] pairs IH]; simpl; intros acc Hin.
  - now left.
  - destruct (IH _ Hin) as [H | H]; [| right; now right].
    destruct (dict_put_In _ _ _ _ H) as [H' | ->];
      [now left | right; now left].
Qed.

Lemma dict_of_In (pairs : list (pykey * V)) (x : pykey * V) :
  In x (dict_of pairs) -> In x pairs.
Proof.
  intros Hin. destruct (dict_of_In_gen pairs [] x Hin) as [[] | H]. exact H.
Qed.

Lemma dict_put_keys (d : list (pykey * V)) (key : pykey) (v : V) :
  map fst (dict_put d key v) =
  if existsb (fun k' => key_eqb k' key) (map fst d)
  then map fst d else map fst d ++ [key].
Proof.
  induction d as [| [k' v'] d IH]; simpl; [reflexivity |].
  destruct (key_eqb k' key); simpl; [reflexivity |].
  rewrite IH. now destruct (existsb _ (map fst d)).
Qed.

Lemma dict_put_fresh (d : list (pykey * V)) (key : pykey) (v : V) :
  ~ In key (map fst d) -> dict_put d key v = d ++ [(key, v)].
Proof.
  induction d as [| [k' v'] d IH]; simpl; intros Hfresh; [reflexivity |].
  destruct (key_eqb k' key) eqn:Ek.
  - apply key_eqb_eq in Ek. exfalso. apply Hfresh. now left.
  - rewrite IH; [reflexivity |]. intros Hin. apply Hfresh. now right.
Qed.

Lemma dict_put_NoDup (d : list (pykey * V)) (key : pykey) (v : V) :
  NoDup (map fst d) -> NoDup (map fst (dict_put d key v)).
Proof.
  intros Hnd. rewrite dict_put_keys.
  destruct (existsb (fun k' => key_eqb k' key) (map fst d)) eqn:Ex;
    [exact Hnd |].
  apply NoDup_app; [exact Hnd | repeat constructor; intros [] |].
  intros a Ha [Heq | []]. subst a.
  assert (Hex : existsb (fun k' => key_eqb k' key) (map fst d) = true).
  { apply existsb_exists. exists key.
    split; [exact Ha | now apply key_eqb_eq]. }
  congruence.
Qed.

Lemma dict_of_NoDup_gen (pairs acc : list (pykey * V)) :
  NoDup (map fst acc) ->
  NoDup (map fst (fold_left (fun d kv => dict_put d (fst kv) (snd kv))
                            pairs acc)).
Proof.
  revert acc. induction pairs as [| [k0 v] pairs IH]; simpl; intros acc Hnd;
    [exact Hnd |].
  apply IH. now apply dict_put_NoDup.
Qed.

Lemma dict_of_NoDup (pairs : list (pykey * V)) :
  NoDup (map fst (dict_of pairs)).
Proof. apply dict_of_NoDup_gen. constructor. Qed.

Lemma dict_of_id_gen (pairs acc : list (pykey * V)) :
  NoDup (map fst (acc ++ pairs)) ->
  fold_left (fun d kv => dict_put d (fst kv) (snd kv)) pairs acc
  = acc ++ pairs.
Proof.
  revert acc. induction pairs as [| [k0 v] pairs IH]; simpl; intros acc Hnd.
  - now rewrite app_nil_r.
  - rewrite dict_put_fresh.
    + rewrite IH; rewrite <- app_assoc; [reflexivity | exact Hnd].
    + rewrite map_app in Hnd. simpl in Hnd.
      apply NoDup_remove_2 in Hnd. intros Hin. apply Hnd.
      apply in_or_app. now left.
Qed.

(** A dict built from pairs with distinct keys holds exactly those pairs. *)
Lemma dict_of_id (pairs : list (pykey * V)) :
  NoDup (map fst pairs) -> dict_of pairs = pairs.
Proof. intros Hnd. now apply (dict_of_id_gen pairs []). Qed.

End DictFacts.

Lemma tolist_json_ready {A} (t : ndarray (pyobj A)) :
  numeric t = true -> json_ready (tolist t) = true.
Proof.
  induction t as [o | elems IH] using ndarray_nested_ind; simpl.
  - destruct o; try discriminate. reflexivity.
  - intros Hn. apply forallb_forall. intros x Hx. apply in_map_iff in Hx.
    destruct Hx as [t [<- Ht]]. rewrite Forall_forall in IH.
    rewrite forallb_forall in Hn. apply IH; auto.
Qed.

Lemma tolist_fixed {A} (t : ndarray (pyobj A)) :
  numeric t = true -> convert_to_json (tolist t) = tolist t.
Proof.
  induction t as [o | elems IH] using ndarray_nested_ind; simpl.
  - destruct o; try discriminate. reflexivity.
  - intros Hn. f_equal. rewrite map_map. apply map_ext_in.
    intros t Ht. rewrite Forall_forall in IH.
    rewrite forallb_forall in Hn. apply IH; auto.
Qed.

(** X13.  When every array met by the conversion is numeric, the result of
    [convert_to_json] holds no array and no tuple, and all its dict keys are
    strings, at every depth.  (An array of dtype object is replaced by its
    elements as they are, see [object_array_elements_kept].) *)
Theorem convert_to_json_ready {A} (obj : pyobj A) :
  numeric_arrays obj = true ->
  json_ready (convert_to_json obj) = true.
Proof.
  induction obj as [t | items IH | xs IH | xs IH | a]
    using pyobj_nested_ind; simpl; intros Hn.
  - now apply tolist_json_ready.
  - apply forallb_forall. intros [k0 v] Hin.
    apply dict_of_In, in_map_iff in Hin.
    destruct Hin as [[k1 v1] [Heq Hin]]. inversion Heq. subst.
    rewrite Forall_forall in IH. rewrite forallb_forall in Hn.
    apply (IH (k1, v1) Hin). apply (Hn (k1, v1) Hin).
  - apply forallb_forall. intros x Hx. apply in_map_iff in Hx.
    destruct Hx as [y [<- Hy]]. rewrite Forall_forall in IH.
    rewrite forallb_forall in Hn. apply IH; auto.
  - apply forallb_forall. intros x Hx. apply in_map_iff in Hx.
    destruct Hx as [y [<- Hy]]. rewrite Forall_forall in IH.
    rewrite forallb_forall in Hn. apply IH; auto.
  - reflexivity.
Qed.

Lemma convert_to_json_ready_witness :
  json_ready
    (convert_to_json
       (PyDict [(KInt 3, PyArray (NdAxis [NdScalar (PyOther 1%Z);
                                          NdScalar (PyOther 2%Z)]));
                (KStr "a", PyTuple [PyOther 5%Z; PyList []])]))
  = true.
Proof.
  apply (@convert_to_json_ready Z).
  reflexivity.
Defined.

(** X14.  When every array met by the conversion is numeric, converting a
    converted value changes nothing. *)
Theorem convert_to_json_idempotent {A} (obj : pyobj A) :
  numeric_arrays obj = true ->
  convert_to_json (convert_to_json obj) = convert_to_json obj.
Proof.
  induction obj as [t | items IH | xs IH | xs IH | a]
    using pyobj_nested_ind; simpl; intros Hn.
  - now apply tolist_fixed.
  - f_equal.
    set (pairs := map (fun kv : pykey * pyobj A =>
                         match kv with
                         | (k0, v) => (KStr (key_str k0), convert_to_json v)
                         end) items).
    assert (Hfix : map (fun kv : pykey * pyobj A =>
                          match kv with
                          | (k0, v) => (KStr (key_str k0), convert_to_json v)
                          end) (dict_of pairs) = dict_of pairs).
    { rewrite <- (map_id (dict_of pairs)) at 2. apply map_ext_in.
      intros [k0 v] Hin. apply dict_of_In in Hin. unfold pairs in Hin.
      apply in_map_iff in Hin. destruct Hin as [[k1 v1] [Heq Hin]].
      inversion Heq. subst. simpl.
      rewrite Forall_forall in IH. rewrite forallb_forall in Hn.
      pose proof (IH (k1, v1) Hin (Hn (k1, v1) Hin)) as Hv.
      simpl in Hv. now rewrite Hv. }
    rewrite Hfix. apply dict_of_id, dict_of_NoDup.
  - f_equal. rewrite map_map. apply map_ext_in.
    intros x Hx. rewrite Forall_forall in IH.
    rewrite forallb_forall in Hn. apply IH; auto.
  - f_equal. rewrite map_map. apply map_ext_in.
    intros x Hx. rewrite Forall_forall in IH.
    rewrite forallb_forall in Hn. apply IH; auto.
  - reflexivity.
Qed.

Lemma convert_to_json_idempotent_witness :
  let obj :=
    PyDict [(KInt 3, PyArray (NdAxis [NdScalar (PyOther 1%Z);
                                      NdScalar (PyOther 2%Z)]));
            (KStr "a", PyTuple [PyOther 5%Z; PyList []])] in
  convert_to_json (convert_to_json obj) = convert_to_json obj.
Proof.
  apply (@convert_to_json_idempotent Z).
  reflexivity.
Defined.

(** An array of dtype object is replaced by its elements as they are: a
    tuple in it stays a tuple after one conversion and becomes a list only
    by a second one. *)
Example object_array_elements_kept :
  let obj := PyArray (NdAxis [NdScalar (PyTuple [PyOther 1%Z])]) in
  convert_to_json obj = PyList [PyTuple [PyOther 1%Z]] /\
  json_ready (convert_to_json obj) = false /\
  convert_to_json (convert_to_json obj) = PyList [PyList [PyOther 1%Z]].
Proof. repeat split. Qed.

Lemma dict_put_length {V} (d : list (pykey * V)) (key : pykey) (v : V) :
  length (dict_put d key v) <= S (length d).
Proof.
  induction d as [| [k' v'] d IH]; simpl; [lia |].
  destruct (key_eqb k' key); simpl; lia.
Qed.

Lemma dict_of_length {V} (pairs : list (pykey * V)) :
  length (dict_of pairs) <= length pairs.
Proof.
  unfold dict_of.
  assert (Hgen : forall acc,
             length (fold_left (fun d kv => dict_put d (fst kv) (snd kv))
                               pairs acc) <= length acc + length pairs).
  { induction pairs as [| [k0 v] pairs IH]; simpl; intros acc; [lia |].
    etransitivity; [apply IH |].
    pose proof (dict_put_length acc k0 v). lia. }
  apply (Hgen []).
Qed.

(** X15.  A converted dict never has more items than the original; when the
    keys print differently under [str], it has one item per original item,
    in the same order, each with its key printed and its value converted. *)
Theorem convert_to_json_dict {A} (items : list (pykey * pyobj A)) :
  exists items',
    convert_to_json (PyDict items) = PyDict items' /\
    length items' <= length items /\
    (NoDup (map (fun kv => key_str (fst kv)) items) ->
     items' = map (fun kv => (KStr (key_str (fst kv)),
                              convert_to_json (snd kv))) items).
Proof.
  exists (dict_of (map (fun kv : pykey * pyobj A =>
                          match kv with
                          | (k0, v) => (KStr (key_str k0), convert_to_json v)
                          end) items)).
  split; [reflexivity |]. split.
  - etransitivity; [apply dict_of_length |]. now rewrite length_map.
  - intros Hnd.
    assert (Emap : map (fun kv : pykey * pyobj A =>
                          match kv with
                          | (k0, v) => (KStr (key_str k0), convert_to_json v)
                          end) items
                   = map (fun kv => (KStr (key_str (fst kv)),
                                     convert_to_json (snd kv))) items).
    { apply map_ext. now intros [k0 v]. }
    rewrite Emap. apply dict_of_id. rewrite map_map. cbn [fst].
    rewrite <- (map_map (fun kv => key_str (fst kv)) KStr).
    apply NoDup_map_NoDup_ForallPairs; [| exact Hnd].
    intros a b _ _ Hab. now inversion Hab.
Qed.
